(** * rasterstats: validation of statistic names, category remapping,
      fractional rasterization and coverage-weighted reducers

    A shallow embedding of [rasterstats/utils.py] and of the statistic
    handling of [rasterstats/cli.py].

    Conventions of the embedding
    - Python [str] values are [string]s (ASCII text).
    - A Python exception is a value of [exn]; a function that may raise
      returns a [result].
    - [float(s)] is embedded as a parser producing an IEEE binary64 value
      ([spec_float], precision 53, emax 1024), correctly rounded.
    - Pixel values, coverage weights and affine coefficients are exact
      rationals ([Q]); accumulated rounding of array arithmetic is not
      part of the model. *)

From Stdlib Require Import ZArith QArith Qabs Qminmax List String Ascii Bool Lia Arith.
From Stdlib Require Import Floats.SpecFloat.
From Stdlib Require Import DecimalString Lqa.
Import ListNotations.

Local Open Scope string_scope.

(* ===================================================================== *)
(** * Part I: definitions                                                 *)
(* ===================================================================== *)

(** ** Exceptions and results *)

Inductive exn : Type :=
| ValueError (msg : string)
| ZeroDivisionError (msg : string).

Inductive result (A : Type) : Type :=
| Ok (a : A)
| Raise (e : exn).

Arguments Ok {A} a.
Arguments Raise {A} e.

Definition bind {A B : Type} (r : result A) (k : A -> result B) : result B :=
  match r with
  | Ok a => k a
  | Raise e => Raise e
  end.

Notation "x <- r ;; k" := (bind r (fun x => k))
  (at level 61, r at next level, right associativity).

Definition is_ok {A : Type} (r : result A) : bool :=
  match r with Ok _ => true | Raise _ => false end.

Definition is_value_error {A : Type} (r : result A) : bool :=
  match r with Raise (ValueError _) => true | _ => false end.

(** ** The string methods used by the source *)

Module PyStr.

(** [s.startswith(p)] *)
Definition startswith (s p : string) : bool := String.prefix p s.

(** [s.replace(old, new)] for a non-empty [old]: occurrences are found
    from the left and do not overlap.  [skip] counts the characters of
    the occurrence being replaced that are still to be dropped. *)
Fixpoint replace_from (old new : string) (skip : nat) (s : string) : string :=
  match s with
  | EmptyString => EmptyString
  | String c s' =>
      match skip with
      | S k => replace_from old new k s'
      | O =>
          if String.prefix old s
          then new ++ replace_from old new (String.length old - 1)%nat s'
          else String c (replace_from old new 0 s')
      end
  end.

Definition replace (s old new : string) : string := replace_from old new 0 s.

(** ASCII white space as [str.split()] sees it. *)
Definition isspace (c : ascii) : bool :=
  let n := nat_of_ascii c in
  (((9 <=? n) && (n <=? 13)) || ((28 <=? n) && (n <=? 32)))%nat.

(** [s.split()]: maximal runs of non-space characters. [cur] is the
    field being read. *)
Fixpoint split_ws_from (cur : string) (s : string) : list string :=
  match s with
  | EmptyString =>
      match cur with EmptyString => [] | _ => [cur] end
  | String c s' =>
      if isspace c
      then match cur with
           | EmptyString => split_ws_from EmptyString s'
           | _ => cur :: split_ws_from EmptyString s'
           end
      else split_ws_from (cur ++ String c EmptyString) s'
  end.

Definition split (s : string) : list string := split_ws_from EmptyString s.

(** [s.split(sep)] for a one-character separator: empty fields are kept. *)
Fixpoint split_on_from (sep : ascii) (cur : string) (s : string) : list string :=
  match s with
  | EmptyString => [cur]
  | String c s' =>
      if Ascii.eqb c sep
      then cur :: split_on_from sep EmptyString s'
      else split_on_from sep (cur ++ String c EmptyString) s'
  end.

Definition split_on (s : string) (sep : ascii) : list string :=
  split_on_from sep EmptyString s.

Definition lower_char (c : ascii) : ascii :=
  let n := nat_of_ascii c in
  if ((65 <=? n) && (n <=? 90))%nat then ascii_of_nat (n + 32)%nat else c.

(** [s.lower()] *)
Fixpoint lower (s : string) : string :=
  match s with
  | EmptyString => EmptyString
  | String c s' => String (lower_char c) (lower s')
  end.

(** [sub in s] *)
Fixpoint contains (sub s : string) : bool :=
  String.prefix sub s ||
  match s with
  | EmptyString => false
  | String _ s' => contains sub s'
  end.

(** [x in l] for a list of strings *)
Definition mem (x : string) (l : list string) : bool :=
  existsb (String.eqb x) l.

End PyStr.

(** ** [float(s)]

    The grammar of the builtin:
    optional white space, an optional sign, then [inf], [infinity] or [nan]
    in any case, or a decimal number (digits with single underscores
    allowed between digits, an optional point, an optional exponent),
    then optional white space.  A string outside the grammar raises
    [ValueError].  The value is the binary64 number nearest to the decimal
    one (ties to even); a value too large becomes an infinity. *)

Module PyFloat.

Definition prec : Z := 53.
Definition emax : Z := 1024.

Definition float : Type := spec_float.

Definition of_Z (z : Z) : float := binary_normalize prec emax z 0 false.

(** [x > y] and [x < y]: both are false when an operand is a NaN. *)
Definition gt (x y : float) : bool := SFltb y x.
Definition lt (x y : float) : bool := SFltb x y.
Definition le (x y : float) : bool := SFleb x y.

Definition is_float_space (c : ascii) : bool :=
  let n := nat_of_ascii c in
  (((9 <=? n) && (n <=? 13)) || (n =? 32))%nat.

Fixpoint lstrip (s : string) : string :=
  match s with
  | String c s' => if is_float_space c then lstrip s' else s
  | EmptyString => EmptyString
  end.

(** Drops trailing white space: a character is kept when it is not a
    space or when something is kept after it. *)
Fixpoint rstrip (s : string) : string :=
  match s with
  | EmptyString => EmptyString
  | String c s' =>
      match rstrip s' with
      | EmptyString => if is_float_space c then EmptyString else String c EmptyString
      | r => String c r
      end
  end.

Definition strip (s : string) : string := rstrip (lstrip s).

Definition digit_of (c : ascii) : option Z :=
  let n := nat_of_ascii c in
  if ((48 <=? n) && (n <=? 57))%nat then Some (Z.of_nat (n - 48)%nat) else None.

Definition is_underscore (c : ascii) : bool := Ascii.eqb c "_"%char.

(** [(["_"] digit)*]: the digits read and what is left. *)
Fixpoint digitpart_tail (s : string) : list Z * string :=
  match s with
  | EmptyString => ([], s)
  | String c s' =>
      match digit_of c with
      | Some d => let (ds, r) := digitpart_tail s' in (d :: ds, r)
      | None =>
          if is_underscore c then
            match s' with
            | String c2 s'' =>
                match digit_of c2 with
                | Some d => let (ds, r) := digitpart_tail s'' in (d :: ds, r)
                | None => ([], s)
                end
            | EmptyString => ([], s)
            end
          else ([], s)
      end
  end.

(** [digit (["_"] digit)*] *)
Definition digitpart (s : string) : option (list Z * string) :=
  match s with
  | String c s' =>
      match digit_of c with
      | Some d => let (ds, r) := digitpart_tail s' in Some (d :: ds, r)
      | None => None
      end
  | EmptyString => None
  end.

Definition digits_value (ds : list Z) : Z :=
  fold_left (fun acc d => 10 * acc + d)%Z ds 0%Z.

(** [[sign]]: [true] for a minus sign. *)
Definition sign (s : string) : bool * string :=
  match s with
  | String "-"%char s' => (true, s')
  | String "+"%char s' => (false, s')
  | _ => (false, s)
  end.

(** [("e" | "E") [sign] digitpart], or nothing. *)
Definition exponent (s : string) : option (Z * string) :=
  match s with
  | String c s' =>
      if Ascii.eqb c "e"%char || Ascii.eqb c "E"%char then
        let (neg, s'') := sign s' in
        match digitpart s'' with
        | Some (ds, r) =>
            Some (if neg then (- digits_value ds)%Z else digits_value ds, r)
        | None => None
        end
      else Some (0%Z, s)
  | EmptyString => Some (0%Z, s)
  end.

(** [[digitpart] "." digitpart | digitpart ["."]] then the exponent:
    the decimal mantissa and the power of ten. *)
Definition floatnumber (s : string) : option (Z * Z) :=
  let after_point (ip : list Z) (s1 : string) : option (list Z * list Z * string) :=
    match s1 with
    | String "."%char s2 =>
        match digitpart s2 with
        | Some (fp, r) => Some (ip, fp, r)
        | None => match ip with [] => None | _ => Some (ip, [], s2) end
        end
    | _ => match ip with [] => None | _ => Some (ip, [], s1) end
    end in
  let number :=
    match digitpart s with
    | Some (ip, s1) => after_point ip s1
    | None => after_point [] s
    end in
  match number with
  | Some (ip, fp, r) =>
      match exponent r with
      | Some (e, EmptyString) =>
          Some (digits_value (ip ++ fp), (e - Z.of_nat (List.length fp))%Z)
      | _ => None
      end
  | None => None
  end.

(** The binary64 number nearest to [m * 10^e], for [m >= 0]. *)
Definition round_decimal (neg : bool) (m e : Z) : float :=
  match m with
  | Zpos p =>
      if (0 <=? e)%Z
      then binary_round prec emax neg (Z.to_pos (Zpos p * 10 ^ e)) 0
      else
        let '(q, e', l) :=
          SFdiv_core_binary prec emax (Zpos p) 0 (10 ^ (- e)) 0 in
        binary_round_aux prec emax neg q e' l
  | _ => S754_zero neg
  end.

Definition of_string (s : string) : result float :=
  let (neg, body) := sign (strip s) in
  let low := PyStr.lower body in
  if String.eqb low "inf" || String.eqb low "infinity" then Ok (S754_infinity neg)
  else if String.eqb low "nan" then Ok S754_nan
  else
    match floatnumber body with
    | Some (m, e) => Ok (round_decimal neg m e)
    | None => Raise (ValueError ("could not convert string to float: " ++ s))
    end.

End PyFloat.

(** ** Validation of the requested statistics ([utils.py]) *)

Definition DEFAULT_STATS : list string := ["count"; "min"; "max"; "mean"].

Definition VALID_STATS : list string :=
  DEFAULT_STATS ++
  ["sum"; "std"; "median"; "majority"; "minority"; "unique"; "range";
   "nodata"; "nan"].

Definition get_percentile (stat : string) : result PyFloat.float :=
  if negb (PyStr.startswith stat "percentile_")
  then Raise (ValueError "must start with 'percentile_'")
  else
    let qstr := PyStr.replace stat "percentile_" "" in
    q <- PyFloat.of_string qstr ;;
    if PyFloat.gt q (PyFloat.of_Z 100)
    then Raise (ValueError "percentiles must be <= 100")
    else if PyFloat.lt q (PyFloat.of_Z 0)
    then Raise (ValueError "percentiles must be >= 0")
    else Ok q.

(** The [stats] argument of [check_stats]: [None], a string, or a list of
    names. *)
Inductive stats_arg : Type :=
| StatsNone
| StatsStr (s : string)
| StatsList (l : list string).

(** Python truth value of the argument. *)
Definition truthy (stats : stats_arg) : bool :=
  match stats with
  | StatsNone => false
  | StatsStr s => negb (String.eqb s "")
  | StatsList l => match l with [] => false | _ => true end
  end.

(** The loop [for x in stats: ...] of [check_stats]. *)
Fixpoint validate_names (stats : list string) : result unit :=
  match stats with
  | [] => Ok tt
  | x :: rest =>
      if PyStr.startswith x "percentile_"
      then _ <- get_percentile x ;; validate_names rest
      else if negb (PyStr.mem x VALID_STATS)
      then Raise (ValueError ("Stat `" ++ x ++ "` not valid; must be one of VALID_STATS"))
      else validate_names rest
  end.

Definition check_stats (stats : stats_arg) (categorical : bool)
  : result (list string * bool) :=
  let stats :=
    if negb (truthy stats) then
      if negb categorical then DEFAULT_STATS else []
    else
      match stats with
      | StatsStr s =>
          if PyStr.mem s ["*"; "ALL"] then VALID_STATS else PyStr.split s
      | StatsList l => l
      | StatsNone => []
      end in
  _ <- validate_names stats ;;
  let run_count :=
    categorical || PyStr.mem "majority" stats || PyStr.mem "minority" stats
    || PyStr.mem "unique" stats in
  Ok (stats, run_count).

(** The names the loop accepts, one by one. *)
Definition name_accepted (x : string) : bool :=
  if PyStr.startswith x "percentile_" then is_ok (get_percentile x)
  else PyStr.mem x VALID_STATS.

(** ** The [--stats] option of the command line ([cli.py], [zonalstats]) *)

Definition cli_stats (stats : option string) : stats_arg :=
  match stats with
  | None => StatsNone
  | Some s =>
      let l := PyStr.split_on s " "%char in
      if PyStr.mem "all" (map PyStr.lower l) then StatsStr "ALL" else StatsList l
  end.

(** ** Category remapping ([remap_categories])

    A Python [dict] is an association list with distinct keys, in
    insertion order. Assigning to a key that is present replaces its value
    in place; a new key goes to the end. *)

Section Dict.

Context {K V : Type}.
Variable K_eqb : K -> K -> bool.

Definition dict : Type := list (K * V).

(** [d[k]], or [None] where the source would get a [KeyError]. *)
Fixpoint dict_get (d : dict) (k : K) : option V :=
  match d with
  | [] => None
  | (k', v') :: d' => if K_eqb k' k then Some v' else dict_get d' k
  end.

(** [d[k] = v] *)
Fixpoint dict_set (d : dict) (k : K) (v : V) : dict :=
  match d with
  | [] => [(k, v)]
  | (k', v') :: d' =>
      if K_eqb k' k then (k', v) :: d' else (k', v') :: dict_set d' k v
  end.

Definition dict_keys (d : dict) : list K := map fst d.

End Dict.

Arguments dict K V : clear implicits.

Section Remap.

Context {K V : Type}.
Variable K_eqb : K -> K -> bool.

(** Dict lookup but returns original key if not found. *)
Definition lookup (m : dict K K) (k : K) : K :=
  match dict_get K_eqb m k with
  | Some label => label
  | None => k
  end.

(** An item under its new key: the label when the category map has the
    key, the key itself otherwise. *)
Definition relabel (category_map : dict K K) (kv : K * V) : K * V :=
  (lookup category_map (fst kv), snd kv).

(** [{lookup(category_map, k): v for k, v in stats.items()}] *)
Definition remap_categories (category_map : dict K K) (stats : dict K V)
  : dict K V :=
  fold_left
    (fun acc kv => dict_set K_eqb acc (lookup category_map (fst kv)) (snd kv))
    stats [].

End Remap.

(** Keys of the concrete examples: a pixel value or a text label. *)
Inductive pykey : Type :=
| KNum (z : Z)
| KStr (s : string).

Definition pykey_eqb (x y : pykey) : bool :=
  match x, y with
  | KNum a, KNum b => Z.eqb a b
  | KStr a, KStr b => String.eqb a b
  | _, _ => false
  end.

(** ** Affine transforms ([affine.Affine])

    The six coefficients [(a, b, c, d, e, f)] of
    [x' = a*x + b*y + c], [y' = d*x + e*y + f]. *)

Module Affine.

Record t : Type := mk { a : Q; b : Q; c : Q; d : Q; e : Q; f : Q }.

(** [affine[i]]: an [Affine] is the tuple [(a, b, c, d, e, f, 0, 0, 1)];
    the source reads the indices 0, 2, 4 and 5. *)
Definition index (m : t) (i : nat) : Q :=
  match i with
  | 0%nat => a m
  | 1%nat => b m
  | 2%nat => c m
  | 3%nat => d m
  | 4%nat => e m
  | 5%nat => f m
  | 8%nat => 1
  | _ => 0
  end.

(** [m * (x, y)] *)
Definition apply (m : t) (p : Q * Q) : Q * Q :=
  let (x, y) := p in
  (a m * x + b m * y + c m, d m * x + e m * y + f m).


(** [Affine.scale(s)] *)
Definition scale (s : Q) : t := mk s 0 0 0 s 0.



End Affine.

(** ** Arrays

    A two-dimensional [ndarray]: its shape and its items in C order. *)

Record ndarray (A : Type) : Type :=
  mk_ndarray { nd_shape : nat * nat; nd_items : list A }.

Arguments mk_ndarray {A} nd_shape nd_items.
Arguments nd_shape {A} n.
Arguments nd_items {A} n.

(** [arr[i, j]] *)
Definition nd_get {A : Type} (arr : ndarray A) (dflt : A) (i j : nat) : A :=
  nth (i * snd (nd_shape arr) + j) (nd_items arr) dflt.

(** The numpy integer types [min_scalar_type] can return, and [object]
    (Python integers, unbounded). *)
Inductive dtype : Type :=
| UInt8 | UInt16 | UInt32 | UInt64
| Int8 | Int16 | Int32 | Int64
| Object.

(** [numpy.min_scalar_type(v)] for a Python integer [v]. *)
Definition min_scalar_type (v : Z) : dtype :=
  if (0 <=? v)%Z then
    if (v <=? 255)%Z then UInt8
    else if (v <=? 65535)%Z then UInt16
    else if (v <=? 4294967295)%Z then UInt32
    else if (v <=? 18446744073709551615)%Z then UInt64
    else Object
  else
    if (-128 <=? v)%Z then Int8
    else if (-32768 <=? v)%Z then Int16
    else if (-2147483648 <=? v)%Z then Int32
    else if (-9223372036854775808 <=? v)%Z then Int64
    else Object.

(** The value an integer takes when stored in the type. *)
Definition wrap (dt : dtype) (z : Z) : Z :=
  let unsigned w := (z mod 2 ^ w)%Z in
  let signed w := ((z + 2 ^ (w - 1)) mod 2 ^ w - 2 ^ (w - 1))%Z in
  match dt with
  | UInt8 => unsigned 8%Z
  | UInt16 => unsigned 16%Z
  | UInt32 => unsigned 32%Z
  | UInt64 => unsigned 64%Z
  | Int8 => signed 8%Z
  | Int16 => signed 16%Z
  | Int32 => signed 32%Z
  | Int64 => signed 64%Z
  | Object => z
  end.



Definition add_dtype (dt : dtype) (x y : Z) : Z := wrap dt (x + y).

(** [count] consecutive pieces of [size] items. *)
Fixpoint take_chunks {A : Type} (count size : nat) (l : list A) : list (list A) :=
  match count with
  | O => []
  | S n => firstn size l :: take_chunks n size (skipn size l)
  end.

(** [a.reshape((n0, n1, n2, n3))] on the items of [a], as nested lists. *)
Definition reshape4 {A : Type} (sh : nat * nat * nat * nat) (items : list A)
  : list (list (list (list A))) :=
  let '(n0, n1, n2, n3) := sh in
  map (fun blk => map (take_chunks n2 n3) (take_chunks n1 (n2 * n3) blk))
      (take_chunks n0 (n1 * n2 * n3) items).

(** Sum of a one-dimensional slice, accumulated in [dt]. *)
Definition sum_dtype (dt : dtype) (l : list Z) : Z :=
  fold_left (add_dtype dt) (map (wrap dt) l) 0%Z.

(** [x.sum(-1, dtype=dt)] on a four-dimensional array. *)
Definition sum_last (dt : dtype) (x : list (list (list (list Z))))
  : list (list (list Z)) :=
  map (map (map (sum_dtype dt))) x.

Fixpoint zip_with {A B C : Type} (g : A -> B -> C) (l : list A) (l' : list B)
  : list C :=
  match l, l' with
  | x :: t, y :: t' => g x y :: zip_with g t t'
  | _, _ => []
  end.

(** [x.sum(1, dtype=dt)] on a three-dimensional array whose last axis has
    [n2] items. *)
Definition sum_axis1 (dt : dtype) (n2 : nat) (x : list (list (list Z)))
  : list (list Z) :=
  map (fun blk =>
         fold_left (zip_with (add_dtype dt)) (map (map (wrap dt)) blk)
                   (repeat 0%Z n2))
      x.

Definition b2z (v : bool) : Z := if v then 1%Z else 0%Z.

(** [rebin_sum(a, shape, dtype)] *)
Definition rebin_sum (arr : ndarray bool) (shape : nat * nat) (dt : dtype)
  : result (ndarray Z) :=
  let '(r, c) := nd_shape arr in
  if ((fst shape =? 0) || (snd shape =? 0))%nat
  then Raise (ZeroDivisionError "integer division or modulo by zero")
  else
    let sh := (fst shape, (r / fst shape)%nat, snd shape, (c / snd shape)%nat) in
    let '(n0, n1, n2, n3) := sh in
    if negb (n0 * n1 * n2 * n3 =? List.length (nd_items arr))%nat
    then Raise (ValueError "cannot reshape array")
    else
      let x := reshape4 sh (map b2z (nd_items arr)) in
      Ok (mk_ndarray (n0, n2) (List.concat (sum_axis1 dt n2 (sum_last dt x)))).

(** ** Fractional rasterization ([rasterize_geom], [rasterize_pctcover_geom])

    [features.rasterize] of rasterio is the external rasterizer: for a
    geometry, an output shape, a transform and the [all_touched] switch
    it gives the burnt [uint8] items in C order, or raises. *)

Record raster_like : Type :=
  mk_like { like_shape : nat * nat; like_affine : Affine.t }.

Section Rasterize.

Variable geometry : Type.
Variable features_rasterize :
  geometry -> Z * Z -> Affine.t -> bool -> result (list Z).

(** The oversampled grid of [rasterize_pctcover_geom]: shape and
    transform of [new_like]. *)
Definition new_affine (like : raster_like) (scale : Z) : Affine.t :=
  let pixel_size_lon := Affine.index (like_affine like) 0 / inject_Z scale in
  let pixel_size_lat := Affine.index (like_affine like) 4 / inject_Z scale in
  let topleftlon := Affine.index (like_affine like) 2 in
  let topleftlat := Affine.index (like_affine like) 5 in
  Affine.mk pixel_size_lon 0 topleftlon 0 pixel_size_lat topleftlat.

Definition new_shape (like : raster_like) (scale : Z) : Z * Z :=
  (Z.of_nat (fst (like_shape like)) * scale,
   Z.of_nat (snd (like_shape like)) * scale)%Z.

(** [rasterize_geom(geom, like, all_touched)] with [like] given by its
    shape and transform. *)
Definition rasterize_geom (geom : geometry) (shape : Z * Z)
           (affine : Affine.t) (all_touched : bool)
  : result (ndarray bool) :=
  rv_array <- features_rasterize geom shape affine all_touched ;;
  Ok (mk_ndarray (Z.to_nat (fst shape), Z.to_nat (snd shape))
                 (map (fun v => negb (v =? 0)%Z) rv_array)).

Definition rasterize_pctcover_geom (geom : geometry) (like : raster_like)
           (scale : option Z) (all_touched : bool)
  : result (ndarray Q) :=
  let scale := match scale with Some s => s | None => 10%Z end in
  let min_dtype := min_scalar_type (scale ^ 2) in
  if (scale =? 0)%Z
  then Raise (ZeroDivisionError "float division by zero")
  else
    rv_array <- rasterize_geom geom (new_shape like scale)
                               (new_affine like scale) all_touched ;;
    rv_array <- rebin_sum rv_array (like_shape like) min_dtype ;;
    Ok (mk_ndarray (nd_shape rv_array)
                   (map (fun v => inject_Z v / inject_Z (scale ^ 2))
                        (nd_items rv_array))).

End Rasterize.

Definition Zsum (l : list Z) : Z := fold_left Z.add l 0%Z.

(** A rasterizer for the examples: it burns the left half of every row
    of the output and refuses an empty shape. *)
Definition left_half_rasterize (g : unit) (shape : Z * Z) (t : Affine.t)
           (all_touched : bool) : result (list Z) :=
  if ((fst shape <=? 0) || (snd shape <=? 0))%Z
  then Raise (ValueError "width and height must be > 0")
  else Ok (map (fun k =>
                  if (Z.of_nat k mod snd shape <? snd shape / 2)%Z
                  then 1%Z else 0%Z)
               (seq 0 (Z.to_nat (fst shape * snd shape)))).

(** The number of covered subpixels in block [(i, j)] of an oversampled
    array, as the specification words it: the items
    [(i*scale + di, j*scale + dj)] for [di] and [dj] below [scale]. *)
Definition block_count (arr : ndarray bool) (scale i j : nat) : Z :=
  Zsum (map (fun di =>
               Zsum (map (fun dj =>
                            b2z (nd_get arr false (i * scale + di)
                                        (j * scale + dj)))
                         (seq 0 scale)))
            (seq 0 scale)).

(** ** Points as boxes ([boxify_points])

    Geometries carry the [type] name shapely gives them; a point has its
    coordinates and a multipoint its member points. *)

Inductive geom : Type :=
| Point (x y : Q)
| MultiPoint (geoms : list (Q * Q))
| LineString (coords : list (Q * Q))
| LinearRing (coords : list (Q * Q))
| MultiLineString (lines : list (list (Q * Q)))
| Polygon (shell : list (Q * Q)) (holes : list (list (Q * Q)))
| MultiPolygon (polygons : list (list (Q * Q) * list (list (Q * Q))))
| GeometryCollection (members : list (list (Q * Q))).

(** [geom.type] *)
Definition geom_type (g : geom) : string :=
  match g with
  | Point _ _ => "Point"
  | MultiPoint _ => "MultiPoint"
  | LineString _ => "LineString"
  | LinearRing _ => "LinearRing"
  | MultiLineString _ => "MultiLineString"
  | Polygon _ _ => "Polygon"
  | MultiPolygon _ => "MultiPolygon"
  | GeometryCollection _ => "GeometryCollection"
  end.

(** [box(minx, miny, maxx, maxy).buffer(distance)]: the rectangle and the
    distance by which shapely moves its boundary (inward when negative). *)
Record buffered_box : Type :=
  mk_buffered_box { box_bounds : Q * Q * Q * Q; buffer_distance : Q }.

(** A window [((row_start, row_stop), (col_start, col_stop))]. *)
Definition window : Type := (Z * Z) * (Z * Z).

Section Boxify.

(** [rast.index(x, y)] and [window_bounds(win, affine)] of
    [rasterstats/io.py]: the pixel that holds a coordinate, and the
    bounds [(w, s, e, n)] of a window. *)
Variable rast_index : Affine.t -> Q -> Q -> Z * Z.
Variable window_bounds : window -> Affine.t -> Q * Q * Q * Q.

(** [buff = -0.01 * abs(min(rast.affine.a, rast.affine.e))] *)
Definition boxify_buff (affine : Affine.t) : Q :=
  - (1 # 100) * Qabs (Qmin (Affine.a affine) (Affine.e affine)).

(** [boxify_points(geom, rast)], the raster given by its transform. Every
    type name that has ["Point"] in it is one of the two the source
    assigns [pts] for. *)
Definition boxify_points (g : geom) (affine : Affine.t)
  : result (list buffered_box) :=
  if negb (PyStr.contains "Point" (geom_type g))
  then Raise (ValueError "Points or multipoints only")
  else
    let buff := boxify_buff affine in
    let pts :=
      match g with
      | Point x y => [(x, y)]
      | MultiPoint geoms => geoms
      | _ => []
      end in
    Ok (map (fun pt : Q * Q =>
               let (row, col) := rast_index affine (fst pt) (snd pt) in
               let win : window := ((row, row + 1), (col, col + 1))%Z in
               mk_buffered_box (window_bounds win affine) buff)
            pts).

End Boxify.

(** One percent of the smaller of the two pixel sizes, as the
    specification words the shrink distance. *)
Definition one_percent_of_smaller_pixel_size (affine : Affine.t) : Q :=
  (1 # 100) * Qmin (Qabs (Affine.a affine)) (Qabs (Affine.e affine)).

(** ** Coverage-weighted reducers ([rs_mean], [rs_count], [rs_sum])

    A masked array, flattened: the data and the mask ([true] hides the
    item). The number a reducer returns is a rational, an infinity or a
    NaN. *)

Record masked_array : Type :=
  mk_masked { ma_data : list Q; ma_mask : list bool }.

Inductive pyfloat : Type :=
| FNum (q : Q)
| FInf (negative : bool)
| FNaN.

Definition Qsum (l : list Q) : Q := fold_left Qplus l 0.

(** The data of the items that are not masked. *)
Fixpoint compressed (data : list Q) (mask : list bool) : list Q :=
  match data, mask with
  | x :: data', m :: mask' =>
      if m then compressed data' mask' else x :: compressed data' mask'
  | _, _ => []
  end.

(** [masked.count()] *)
Definition ma_count (m : masked_array) : nat :=
  List.length (compressed (ma_data m) (ma_mask m)).

(** [masked.sum()], also [np.sum(masked)]: the [masked] constant ([None])
    when every item is masked. *)
Definition ma_sum (m : masked_array) : option Q :=
  if (ma_count m =? 0)%nat then None
  else Some (Qsum (compressed (ma_data m) (ma_mask m))).

(** [masked.mean()] *)
Definition ma_mean (m : masked_array) : option Q :=
  if (ma_count m =? 0)%nat then None
  else Some (Qsum (compressed (ma_data m) (ma_mask m))
             / inject_Z (Z.of_nat (ma_count m))).

(** [masked * cover_weights]: the products, under the same mask. *)
Definition ma_mul (m : masked_array) (w : list Q) : masked_array :=
  mk_masked (zip_with Qmult (ma_data m) w) (ma_mask m).

(** [~masked.mask * cover_weights]: the weight where the item is valid,
    zero elsewhere. *)
Definition valid_weights (m : masked_array) (w : list Q) : list Q :=
  zip_with (fun (hidden : bool) (x : Q) => (if hidden then 0 else 1) * x)
           (ma_mask m) w.

(** [float(x)] of a scalar that may be the [masked] constant. *)
Definition float_of (x : option Q) : pyfloat :=
  match x with
  | Some q => FNum q
  | None => FNaN
  end.

(** [x / y] on numpy floats. *)
Definition np_div (x y : Q) : pyfloat :=
  if Qeq_bool y 0 then
    if Qeq_bool x 0 then FNaN
    else FInf (negb (Qle_bool 0 x))
  else FNum (x / y).

Definition rs_mean (masked : masked_array) (cover_weights : option (list Q))
  : pyfloat :=
  match cover_weights with
  | Some w =>
      match ma_sum (ma_mul masked w) with
      | Some s => np_div s (Qsum (valid_weights masked w))
      | None => FNaN
      end
  | None => float_of (ma_mean masked)
  end.

Definition rs_count (masked : masked_array) (cover_weights : option (list Q))
  : pyfloat :=
  match cover_weights with
  | Some w => FNum (Qsum (valid_weights masked w))
  | None => FNum (inject_Z (Z.of_nat (ma_count masked)))
  end.

Definition rs_sum (masked : masked_array) (cover_weights : option (list Q))
  : pyfloat :=
  match cover_weights with
  | Some w => float_of (ma_sum (ma_mul masked w))
  | None => float_of (ma_sum masked)
  end.

(** Equality of float results, rationals compared as numbers. *)
Definition pyfloat_eq (x y : pyfloat) : Prop :=
  match x, y with
  | FNum p, FNum q => p == q
  | FInf s, FInf s' => s = s'
  | FNaN, FNaN => True
  | _, _ => False
  end.

(** The valid pixels of a masked array with their weights, and the sums
    the specification names. *)
Fixpoint valid_pixels (data : list Q) (mask : list bool) (w : list Q)
  : list (Q * Q) :=
  match data, mask, w with
  | x :: data', m :: mask', wx :: w' =>
      if m then valid_pixels data' mask' w'
      else (x, wx) :: valid_pixels data' mask' w'
  | _, _, _ => []
  end.

Definition weight_total (px : list (Q * Q)) : Q := Qsum (map snd px).
Definition weighted_total (px : list (Q * Q)) : Q :=
  Qsum (map (fun p => fst p * snd p) px).

(** ** The key of a chosen count ([key_assoc_val])

    [func] is the reducer the caller passes, [max] or [min] in practice;
    it may raise. *)

Section KeyAssocVal.

Context {K V : Type}.
Variable V_eqb : V -> V -> bool.

(** [l.index(x)]: the first position whose item equals [x]. *)
Fixpoint list_index (l : list V) (x : V) : result nat :=
  match l with
  | [] => Raise (ValueError "x is not in list")
  | y :: l' =>
      if V_eqb y x then Ok 0%nat
      else i <- list_index l' x ;; Ok (S i)
  end.

(** [key_assoc_val(d, func)]. The position [index] returns is always
    within [ks], which is as long as [vs]. *)
Definition key_assoc_val (d : dict K V) (func : list V -> result V)
  : result K :=
  let vs := map snd d in
  let ks := map fst d in
  x <- func vs ;;
  i <- list_index vs x ;;
  match nth_error ks i with
  | Some key => Ok key
  | None => Raise (ValueError "list index out of range")
  end.

End KeyAssocVal.

(** The builtins [max] and [min] on a list of integers: the first of the
    largest (smallest) items, [ValueError] on an empty list. *)
Fixpoint max_from (best : Z) (l : list Z) : Z :=
  match l with
  | [] => best
  | x :: l' => max_from (if (best <? x)%Z then x else best) l'
  end.

Definition py_max (l : list Z) : result Z :=
  match l with
  | [] => Raise (ValueError "max() arg is an empty sequence")
  | x :: l' => Ok (max_from x l')
  end.

Fixpoint min_from (best : Z) (l : list Z) : Z :=
  match l with
  | [] => best
  | x :: l' => min_from (if (x <? best)%Z then x else best) l'
  end.

Definition py_min (l : list Z) : result Z :=
  match l with
  | [] => Raise (ValueError "min() arg is an empty sequence")
  | x :: l' => Ok (min_from x l')
  end.

(* ===================================================================== *)
(** * Part II: properties                                                 *)
(* ===================================================================== *)

Local Open Scope list_scope.

(** ** Validation of statistic names *)

Lemma mem_true_iff (x : string) (l : list string) :
  PyStr.mem x l = true <-> In x l.
Proof.
  unfold PyStr.mem. rewrite existsb_exists. split.
  - intros [y [Hin Heq]]. apply String.eqb_eq in Heq. now subst.
  - intros Hin. exists x. split; [assumption | apply String.eqb_refl].
Qed.

(** Every way [float(s)] fails is a [ValueError]. *)
Lemma of_string_raises_value_error (s : string) :
  is_ok (PyFloat.of_string s) = true \/
  is_value_error (PyFloat.of_string s) = true.
Proof.
  unfold PyFloat.of_string.
  destruct (PyFloat.sign (PyFloat.strip s)) as [neg body].
  destruct (_ || _); [now left |].
  destruct (String.eqb _ _); [now left |].
  destruct (PyFloat.floatnumber body) as [[m e] |]; [now left | now right].
Qed.

(** [get_percentile] either returns or raises a [ValueError]. *)
Lemma get_percentile_raises_value_error (stat : string) :
  is_ok (get_percentile stat) = true \/
  is_value_error (get_percentile stat) = true.
Proof.
  unfold get_percentile.
  destruct (negb _); [now right |].
  destruct (of_string_raises_value_error
              (PyStr.replace stat "percentile_" "")) as [H | H];
    destruct (PyFloat.of_string _) as [q | [msg | msg]];
    simpl in *; try discriminate; try now right.
  destruct (PyFloat.gt _ _); [now right |].
  destruct (PyFloat.lt _ _); [now right | now left].
Qed.

(** What [get_percentile] accepts: a name that starts with the prefix,
    whose remainder [float] reads, with a value that is neither above
    100 nor below 0. *)
Lemma get_percentile_ok_iff (stat : string) (q : PyFloat.float) :
  get_percentile stat = Ok q <->
  PyStr.startswith stat "percentile_" = true /\
  PyFloat.of_string (PyStr.replace stat "percentile_" "") = Ok q /\
  PyFloat.gt q (PyFloat.of_Z 100) = false /\
  PyFloat.lt q (PyFloat.of_Z 0) = false.
Proof.
  unfold get_percentile.
  destruct (PyStr.startswith stat "percentile_"); simpl.
  - destruct (PyFloat.of_string _) as [q' | err]; simpl.
    + destruct (PyFloat.gt q' _) eqn:Hgt.
      * split; [discriminate |].
        intros (_ & Heq & Hg & _). injection Heq as ->. congruence.
      * destruct (PyFloat.lt q' _) eqn:Hlt.
        -- split; [discriminate |].
           intros (_ & Heq & _ & Hl). injection Heq as ->. congruence.
        -- split.
           ++ intros Heq. injection Heq as ->. auto.
           ++ intros (_ & Heq & _). exact Heq.
    + split; [discriminate | intros (_ & Heq & _); discriminate].
  - split; [discriminate | intros (Hf & _); discriminate].
Qed.

(** Comparison of binary64 values is antisymmetric. *)
Lemma SFcompare_antisym (x y : spec_float) :
  SFcompare y x = option_map CompOpp (SFcompare x y).
Proof.
  destruct x as [sx | sx | | sx mx ex], y as [sy | sy | | sy my ey];
    try reflexivity;
    try (destruct sx; reflexivity);
    try (destruct sy; reflexivity);
    try (destruct sx, sy; reflexivity).
  cbn [SFcompare option_map].
  destruct sx, sy; try reflexivity; f_equal;
    rewrite (Z.compare_antisym ey ex);
    destruct (ey ?= ex)%Z; cbn [CompOpp]; try reflexivity;
    change (PosDef.Pos.compare_cont Eq my mx)
      with (Pos.compare_cont (CompOpp Eq) my mx);
    rewrite <- (Pos.compare_cont_antisym mx my Eq);
    reflexivity.
Qed.

Lemma le_not_gt (x y : PyFloat.float) :
  PyFloat.le x y = true -> PyFloat.gt x y = false.
Proof.
  unfold PyFloat.le, PyFloat.gt, SFleb, SFltb.
  rewrite (SFcompare_antisym x y).
  destruct (SFcompare x y) as [[| |] |]; cbn; congruence.
Qed.

Lemma le_not_lt (x y : PyFloat.float) :
  PyFloat.le x y = true -> PyFloat.lt y x = false.
Proof. exact (le_not_gt x y). Qed.

(** A percentile name is accepted when [float] reads from it a number
    between 0 and 100, the two ends included. *)
Lemma get_percentile_in_range (stat : string) (q : PyFloat.float) :
  PyStr.startswith stat "percentile_" = true ->
  PyFloat.of_string (PyStr.replace stat "percentile_" "") = Ok q ->
  PyFloat.le (PyFloat.of_Z 0) q = true ->
  PyFloat.le q (PyFloat.of_Z 100) = true ->
  get_percentile stat = Ok q.
Proof.
  intros Hpre Hparse Hlo Hhi.
  apply get_percentile_ok_iff. repeat split; auto using le_not_gt, le_not_lt.
Qed.

(** A percentile name whose number is above 100 or below 0 is rejected. *)
Lemma get_percentile_out_of_range (stat : string) (q : PyFloat.float) :
  PyFloat.of_string (PyStr.replace stat "percentile_" "") = Ok q ->
  PyFloat.gt q (PyFloat.of_Z 100) = true \/
  PyFloat.lt q (PyFloat.of_Z 0) = true ->
  is_value_error (get_percentile stat) = true.
Proof.
  intros Hparse Hout. unfold get_percentile.
  destruct (negb _); [reflexivity |].
  rewrite Hparse. cbn [bind].
  destruct (PyFloat.gt q _); [reflexivity |].
  destruct Hout as [H | H]; [discriminate | now rewrite H].
Qed.

(** A percentile name from which [float] reads a NaN is accepted: a NaN
    is neither above 100 nor below 0. *)
Lemma get_percentile_accepts_nan (stat : string) :
  PyStr.startswith stat "percentile_" = true ->
  PyFloat.of_string (PyStr.replace stat "percentile_" "") = Ok S754_nan ->
  get_percentile stat = Ok S754_nan.
Proof.
  intros Hpre Hparse. apply get_percentile_ok_iff. auto.
Qed.

Example percentile_endpoints_accepted :
  is_ok (get_percentile "percentile_0") = true /\
  is_ok (get_percentile "percentile_100") = true /\
  is_ok (get_percentile "percentile_99.9") = true /\
  is_value_error (get_percentile "percentile_101") = true /\
  is_value_error (get_percentile "percentile_-1") = true /\
  is_value_error (get_percentile "percentile_abc") = true.
Proof. repeat split; vm_compute; reflexivity. Qed.

(** [replace] removes every occurrence of the prefix, so a name with the
    prefix twice is read as the number that is left. *)
Example percentile_prefix_twice_accepted :
  is_ok (get_percentile "percentile_percentile_50") = true.
Proof. vm_compute. reflexivity. Qed.

(** The loop of [check_stats] either accepts every name or raises a
    [ValueError]. *)
Lemma validate_names_raises_value_error (stats : list string) :
  validate_names stats = Ok tt \/
  is_value_error (validate_names stats) = true.
Proof.
  induction stats as [| x rest IH]; cbn [validate_names]; [now left |].
  destruct (PyStr.startswith x "percentile_").
  - destruct (get_percentile_raises_value_error x) as [H | H];
      destruct (get_percentile x) as [q | [msg | msg]];
      cbn [bind is_ok is_value_error] in *; try discriminate; auto.
  - destruct (PyStr.mem x VALID_STATS); cbn [negb]; [exact IH | now right].
Qed.

Lemma validate_names_ok_iff (stats : list string) :
  validate_names stats = Ok tt <-> forallb name_accepted stats = true.
Proof.
  induction stats as [| x rest IH]; cbn [validate_names forallb]; [tauto |].
  unfold name_accepted at 1.
  destruct (PyStr.startswith x "percentile_").
  - destruct (get_percentile x) as [q | err];
      cbn [bind is_ok andb]; [exact IH | split; discriminate].
  - destruct (PyStr.mem x VALID_STATS);
      cbn [negb andb]; [exact IH | split; discriminate].
Qed.

Lemma check_stats_list_ok_iff (l : list string) (categorical : bool) :
  l <> [] ->
  (is_ok (check_stats (StatsList l) categorical) = true <->
   forallb name_accepted l = true).
Proof.
  intros Hl. unfold check_stats.
  destruct l as [| x rest]; [congruence |].
  cbn [truthy negb].
  rewrite <- validate_names_ok_iff.
  destruct (validate_names (x :: rest)) as [[] | err]; simpl.
  - tauto.
  - split; discriminate.
Qed.

(** [check_stats] raises nothing but [ValueError]. *)
Lemma check_stats_raises_value_error (stats : stats_arg) (categorical : bool) :
  is_ok (check_stats stats categorical) = true \/
  is_value_error (check_stats stats categorical) = true.
Proof.
  unfold check_stats.
  match goal with
  | |- context [validate_names ?l] =>
      destruct (validate_names_raises_value_error l) as [H | H];
      destruct (validate_names l) as [[] | [msg | msg]]
  end; cbn [bind is_ok is_value_error] in *; try discriminate; auto.
Qed.

(** C9: with no statistics requested ([None], an empty string or an empty
    list), [check_stats] resolves the request to count, min, max and mean
    when [categorical] is off and to the empty list when it is on. *)
Theorem check_stats_default (stats : stats_arg) (categorical : bool) :
  truthy stats = false ->
  check_stats stats categorical =
  Ok (if categorical then [] else ["count"; "min"; "max"; "mean"],
      categorical).
Proof.
  intros Hfalsy. unfold check_stats. rewrite Hfalsy.
  destruct categorical; reflexivity.
Qed.

(** The empty list, [categorical] off. *)
Lemma check_stats_default_witness :
  truthy (StatsList []) = false /\
  check_stats (StatsList []) false =
  Ok (["count"; "min"; "max"; "mean"], false).
Proof.
  split; [reflexivity |].
  apply (check_stats_default (StatsList []) false). reflexivity.
Defined.

(** C5: the strings ['*'] and ['ALL'] expand to [VALID_STATS], thirteen
    names, and [no_overlap] is not one of them. *)
Theorem check_stats_all_lacks_no_overlap (categorical : bool) :
  check_stats (StatsStr "*") categorical = Ok (VALID_STATS, true) /\
  check_stats (StatsStr "ALL") categorical = Ok (VALID_STATS, true) /\
  VALID_STATS =
    ["count"; "min"; "max"; "mean"; "sum"; "std"; "median"; "majority";
     "minority"; "unique"; "range"; "nodata"; "nan"] /\
  PyStr.mem "no_overlap" VALID_STATS = false.
Proof.
  repeat split; destruct categorical; reflexivity.
Qed.

(** C3: the name [no_overlap] is rejected with a [ValueError], given in a
    list or in a string. *)
Theorem check_stats_rejects_no_overlap (categorical : bool) :
  is_value_error (check_stats (StatsList ["no_overlap"]) categorical) = true /\
  is_value_error (check_stats (StatsStr "no_overlap") categorical) = true.
Proof.
  split; destruct categorical; reflexivity.
Qed.

(** C2: the name [percentile_nan] passes validation: [float] reads a NaN,
    and a NaN is neither above 100 nor below 0. *)
Theorem check_stats_accepts_percentile_nan (categorical : bool) :
  get_percentile "percentile_nan" = Ok S754_nan /\
  check_stats (StatsList ["percentile_nan"]) categorical =
  Ok (["percentile_nan"], categorical).
Proof.
  split; [reflexivity | destruct categorical; reflexivity].
Qed.

(** C10: a list of names that has ['ALL'] or ['*'] among its items is
    rejected with a [ValueError]; the command line turns a [--stats] value
    with an item that reads [all] in any case into the string ['ALL'],
    which [check_stats] expands. *)
Theorem check_stats_all_in_list_rejected :
  (forall (l : list string) (categorical : bool),
      In "ALL" l \/ In "*" l ->
      is_value_error (check_stats (StatsList l) categorical) = true) /\
  (forall (s : string) (categorical : bool),
      existsb (fun x => String.eqb (PyStr.lower x) "all")
              (PyStr.split_on s " "%char) = true ->
      cli_stats (Some s) = StatsStr "ALL" /\
      check_stats (cli_stats (Some s)) categorical = Ok (VALID_STATS, true)).
Proof.
  split.
  - intros l categorical Hin.
    assert (Hne : l <> []) by (destruct Hin as [H | H]; intros ->; exact H).
    assert (Hbad : forallb name_accepted l = false).
    { apply not_true_is_false. intros Hall.
      rewrite forallb_forall in Hall.
      destruct Hin as [H | H]; apply Hall in H; discriminate H. }
    pose proof (check_stats_list_ok_iff l categorical Hne) as Hiff.
    destruct (check_stats_raises_value_error (StatsList l) categorical)
      as [Hok | Herr]; [| exact Herr].
    apply Hiff in Hok. congruence.
  - intros s categorical Hall.
    assert (Hcli : cli_stats (Some s) = StatsStr "ALL").
    { unfold cli_stats.
      assert (Hmem : PyStr.mem "all" (map PyStr.lower (PyStr.split_on s " "%char)) = true).
      { apply mem_true_iff. apply existsb_exists in Hall.
        destruct Hall as [x [Hin Heq]]. apply String.eqb_eq in Heq.
        rewrite <- Heq. now apply in_map. }
      now rewrite Hmem. }
    split; [exact Hcli |].
    rewrite Hcli. destruct categorical; reflexivity.
Qed.

(** The list [['min', 'ALL']] and the option value ["min All"]. *)
Lemma check_stats_all_in_list_rejected_witness :
  is_value_error (check_stats (StatsList ["min"; "ALL"]) false) = true /\
  cli_stats (Some "min All") = StatsStr "ALL".
Proof.
  split.
  - apply (proj1 check_stats_all_in_list_rejected ["min"; "ALL"] false).
    left. simpl. auto.
  - apply (proj2 check_stats_all_in_list_rejected "min All" false).
    reflexivity.
Defined.

(** ** Category remapping *)

Section RemapProperties.

Context {K V : Type}.
Variable K_eqb : K -> K -> bool.
Hypothesis K_eqb_eq : forall x y, K_eqb x y = true <-> x = y.

Lemma K_eqb_neq (x y : K) : x <> y -> K_eqb x y = false.
Proof.
  intros Hne. destruct (K_eqb x y) eqn:E; [| reflexivity].
  apply K_eqb_eq in E. contradiction.
Qed.

Lemma K_eqb_refl (x : K) : K_eqb x x = true.
Proof. now apply K_eqb_eq. Qed.

(** Assigning to a key that is absent appends the item. *)
Lemma dict_set_fresh (d : dict K V) (k : K) (v : V) :
  ~ In k (dict_keys d) -> dict_set K_eqb d k v = d ++ [(k, v)].
Proof.
  induction d as [| [k' v'] d IH]; cbn; intros Hfresh; [reflexivity |].
  rewrite K_eqb_neq by tauto. f_equal. apply IH. tauto.
Qed.

(** Reading a key of a dict with distinct keys. *)
Lemma dict_get_in (d : dict K V) (k : K) (v : V) :
  NoDup (dict_keys d) -> (dict_get K_eqb d k = Some v <-> In (k, v) d).
Proof.
  induction d as [| [k' v'] d IH]; cbn; intros Hnd.
  - split; [discriminate | tauto].
  - inversion Hnd as [| ? ? Hnotin Hnd']; subst.
    destruct (K_eqb k' k) eqn:E.
    + apply K_eqb_eq in E. subst k'. split.
      * intros [= ->]. now left.
      * intros [[= ->] | Hin]; [reflexivity |].
        exfalso. apply Hnotin. change k with (fst (k, v)).
        now apply in_map.
    + rewrite (IH Hnd'). split; [tauto |].
      intros [[= -> ->] | Hin]; [| exact Hin].
      rewrite K_eqb_refl in E. discriminate.
Qed.

Lemma dict_keys_relabel (category_map : dict K K) (stats : dict K V) :
  dict_keys (map (relabel K_eqb category_map) stats) =
  map (lookup K_eqb category_map) (dict_keys stats).
Proof. unfold dict_keys. rewrite !map_map. reflexivity. Qed.

(** The comprehension, started from any dict the new labels are not in. *)
Lemma remap_fold_fresh (category_map : dict K K) (stats acc : dict K V) :
  NoDup (map (lookup K_eqb category_map) (dict_keys stats)) ->
  (forall k, In k (dict_keys stats) ->
             ~ In (lookup K_eqb category_map k) (dict_keys acc)) ->
  fold_left
    (fun acc kv =>
       dict_set K_eqb acc (lookup K_eqb category_map (fst kv)) (snd kv))
    stats acc
  = acc ++ map (relabel K_eqb category_map) stats.
Proof.
  revert acc.
  induction stats as [| [k v] stats IH]; cbn [fold_left map dict_keys fst snd];
    intros acc Hnd Hfresh.
  - now rewrite app_nil_r.
  - inversion Hnd as [| ? ? Hnotin Hnd']; subst.
    rewrite dict_set_fresh by (apply Hfresh; now left).
    rewrite IH.
    + rewrite <- app_assoc. reflexivity.
    + exact Hnd'.
    + intros k' Hin. unfold dict_keys. rewrite map_app, in_app_iff.
      intros [Hacc | [Heq | []]].
      * apply (Hfresh k'); [now right | exact Hacc].
      * cbn in Heq. apply Hnotin. rewrite Heq.
        now apply in_map.
Qed.

(** C6, as amended: when the relabelled keys are pairwise distinct,
    [remap_categories] gives the items of [stats] in their order, each key
    replaced by its label when the category map has it and kept otherwise,
    each count unchanged; so the count under a key is found under its
    label, and the keys of the result are the relabelled keys. *)
Theorem remap_categories_relabels
        (category_map : dict K K) (stats : dict K V) :
  NoDup (map (lookup K_eqb category_map) (dict_keys stats)) ->
  remap_categories K_eqb category_map stats =
    map (relabel K_eqb category_map) stats /\
  (forall k v, In (k, v) stats ->
               dict_get K_eqb (remap_categories K_eqb category_map stats)
                        (lookup K_eqb category_map k) = Some v) /\
  (forall k', In k' (dict_keys (remap_categories K_eqb category_map stats)) <->
              exists k, In k (dict_keys stats) /\
                        k' = lookup K_eqb category_map k).
Proof.
  intros Hnd.
  assert (Heq : remap_categories K_eqb category_map stats =
                map (relabel K_eqb category_map) stats).
  { unfold remap_categories. rewrite remap_fold_fresh; auto. }
  rewrite Heq. split; [reflexivity | split].
  - intros k v Hin. apply dict_get_in.
    + now rewrite dict_keys_relabel.
    + change (lookup K_eqb category_map k, v)
        with (relabel K_eqb category_map (k, v)).
      now apply in_map.
  - intros k'. rewrite dict_keys_relabel, in_map_iff. split.
    + intros [k [Hk Hin]]. exists k. auto.
    + intros [k [Hin Hk]]. exists k. auto.
Qed.

End RemapProperties.

Lemma pykey_eqb_eq (x y : pykey) : pykey_eqb x y = true <-> x = y.
Proof.
  destruct x as [a | a], y as [b | b]; cbn; split;
    try discriminate; try (intros [= ->]).
  - intros H. apply Z.eqb_eq in H. now subst.
  - apply Z.eqb_refl.
  - intros H. apply String.eqb_eq in H. now subst.
  - apply String.eqb_refl.
Qed.

(** The example of the specification: under the map [{5.0: 'cat5'}] the
    count of 5.0 is reported under ['cat5'] and the key 5.0 is gone. *)
Lemma remap_categories_relabels_witness :
  NoDup (map (lookup pykey_eqb [(KNum 5, KStr "cat5")])
             (dict_keys [(KNum 1, 75%Z); (KNum 5, 3%Z)])) /\
  remap_categories pykey_eqb [(KNum 5, KStr "cat5")]
                   [(KNum 1, 75%Z); (KNum 5, 3%Z)] =
    [(KNum 1, 75%Z); (KStr "cat5", 3%Z)] /\
  dict_get pykey_eqb
           (remap_categories pykey_eqb [(KNum 5, KStr "cat5")]
                             [(KNum 1, 75%Z); (KNum 5, 3%Z)])
           (KStr "cat5") = Some 3%Z /\
  dict_get pykey_eqb
           (remap_categories pykey_eqb [(KNum 5, KStr "cat5")]
                             [(KNum 1, 75%Z); (KNum 5, 3%Z)])
           (KNum 5) = None.
Proof.
  assert (Hnd : NoDup (map (lookup pykey_eqb [(KNum 5, KStr "cat5")])
                           (dict_keys [(KNum 1, 75%Z); (KNum 5, 3%Z)]))).
  { cbn. repeat constructor; cbn; intuition discriminate. }
  destruct (remap_categories_relabels pykey_eqb pykey_eqb_eq
              [(KNum 5, KStr "cat5")] [(KNum 1, 75%Z); (KNum 5, 3%Z)] Hnd)
    as (Heq & Hget & _).
  split; [exact Hnd | split; [exact Heq | split]].
  - apply (Hget (KNum 5) 3%Z). cbn. auto.
  - rewrite Heq. reflexivity.
Defined.

(** C6, as stated, fails: two keys with one label leave one item, and the
    count of the first key is lost. *)
Lemma remap_categories_collision :
  dict_get pykey_eqb [(KNum 1, 3%Z); (KNum 2, 4%Z)] (KNum 1) = Some 3%Z /\
  remap_categories pykey_eqb [(KNum 1, KStr "a"); (KNum 2, KStr "a")]
                   [(KNum 1, 3%Z); (KNum 2, 4%Z)] = [(KStr "a", 4%Z)] /\
  dict_get pykey_eqb
           (remap_categories pykey_eqb [(KNum 1, KStr "a"); (KNum 2, KStr "a")]
                             [(KNum 1, 3%Z); (KNum 2, 4%Z)])
           (lookup pykey_eqb [(KNum 1, KStr "a"); (KNum 2, KStr "a")] (KNum 1))
  <> Some 3%Z.
Proof.
  cbn. repeat split. discriminate.
Qed.

(** ** The oversampled grid *)





(** ** Points as boxes *)

Section BoxifyProperties.

Variable rast_index : Affine.t -> Q -> Q -> Z * Z.
Variable window_bounds : window -> Affine.t -> Q * Q * Q * Q.

(** A geometry that is neither a point nor a multipoint is refused. *)
Lemma boxify_points_refuses_other (g : geom) (affine : Affine.t) :
  match g with Point _ _ | MultiPoint _ => False | _ => True end ->
  boxify_points rast_index window_bounds g affine =
  Raise (ValueError "Points or multipoints only").
Proof. destruct g; intros H; try contradiction; reflexivity. Qed.

(** One box for a point, one box for each member of a multipoint, each
    buffered by [boxify_buff]. *)
Lemma boxify_points_one_box_per_point (g : geom) (affine : Affine.t) :
  match g with Point _ _ | MultiPoint _ => True | _ => False end ->
  exists boxes,
    boxify_points rast_index window_bounds g affine = Ok boxes /\
    List.length boxes =
      match g with MultiPoint geoms => List.length geoms | _ => 1%nat end /\
    Forall (fun b => buffer_distance b = boxify_buff affine) boxes.
Proof.
  destruct g; intros H; try contradiction;
    (eexists; split; [reflexivity | split]).
  - reflexivity.
  - cbn. destruct (rast_index affine x y). repeat constructor.
  - apply length_map.
  - apply Forall_map. apply Forall_forall. intros pt _.
    destruct (rast_index affine (fst pt) (snd pt)). reflexivity.
Qed.

(** With pixels as wide as they are high the buffer is one percent of
    the pixel size, inward. *)
Lemma boxify_buff_square_pixels (affine : Affine.t) :
  Qabs (Affine.a affine) == Qabs (Affine.e affine) ->
  boxify_buff affine == - one_percent_of_smaller_pixel_size affine.
Proof.
  intros Hsq. unfold boxify_buff, one_percent_of_smaller_pixel_size.
  assert (Hmin : Qabs (Qmin (Affine.a affine) (Affine.e affine))
                 == Qmin (Qabs (Affine.a affine)) (Qabs (Affine.e affine))).
  { rewrite <- Hsq.
    rewrite (Q.min_l (Qabs (Affine.a affine)) (Qabs (Affine.a affine)))
      by apply Qle_refl.
    destruct (Q.min_spec (Affine.a affine) (Affine.e affine))
      as [[_ ->] | [_ ->]]; [reflexivity | now symmetry]. }
  rewrite Hmin. ring.
Qed.

(** C7: with pixels one unit wide and ten units high ([a = 1],
    [e = -10]) the box of a point is buffered by [-1/10], one percent of
    the larger pixel size; one percent of the smaller one is [1/100]. *)
Theorem boxify_points_buffer_of_tall_pixels :
  exists b,
    boxify_points rast_index window_bounds (Point (1 # 2) (- 5))
                  (Affine.mk 1 0 0 0 (- 10) 0) = Ok [b] /\
    buffer_distance b == - (1 # 10) /\
    one_percent_of_smaller_pixel_size (Affine.mk 1 0 0 0 (- 10) 0)
    == 1 # 100 /\
    ~ buffer_distance b
      == - one_percent_of_smaller_pixel_size (Affine.mk 1 0 0 0 (- 10) 0).
Proof.
  unfold boxify_points. cbn [geom_type PyStr.contains negb].
  replace (PyStr.contains "Point" "Point") with true by reflexivity.
  cbn [negb map fst snd].
  destruct (rast_index _ _ _) as [row col].
  eexists. split; [reflexivity |].
  cbn [buffer_distance]. repeat split; try reflexivity.
  intros H. vm_compute in H. discriminate.
Qed.

End BoxifyProperties.

(** ** Coverage-weighted reducers *)

Lemma Qsum_from (l : list Q) (acc : Q) :
  fold_left Qplus l acc == acc + Qsum l.
Proof.
  unfold Qsum. revert acc.
  induction l as [| x l IH]; intros acc; cbn [fold_left].
  - ring.
  - rewrite (IH (acc + x)), (IH (0 + x)). ring.
Qed.

Lemma Qsum_cons (x : Q) (l : list Q) : Qsum (x :: l) == x + Qsum l.
Proof.
  unfold Qsum at 1. cbn [fold_left]. rewrite Qsum_from. ring.
Qed.

(** The products that are not masked are the products of the valid
    pixels with their weights. *)
Lemma compressed_products (data : list Q) (mask : list bool) (w : list Q) :
  List.length data = List.length mask ->
  List.length w = List.length data ->
  compressed (zip_with Qmult data w) mask =
  map (fun p => fst p * snd p) (valid_pixels data mask w).
Proof.
  revert mask w.
  induction data as [| x data IH]; intros [| m mask] [| wx w] Hm Hw;
    cbn in *; try discriminate; try reflexivity.
  destruct m; cbn; [| f_equal]; apply IH; lia.
Qed.

Lemma compressed_length (data : list Q) (mask : list bool) (w : list Q) :
  List.length data = List.length mask ->
  List.length w = List.length data ->
  List.length (compressed data mask) = List.length (valid_pixels data mask w).
Proof.
  revert mask w.
  induction data as [| x data IH]; intros [| m mask] [| wx w] Hm Hw;
    cbn in *; try discriminate; try reflexivity.
  destruct m; cbn; [| f_equal]; apply IH; lia.
Qed.

Lemma compressed_values (data : list Q) (mask : list bool) (w : list Q) :
  List.length data = List.length mask ->
  List.length w = List.length data ->
  compressed data mask = map fst (valid_pixels data mask w).
Proof.
  revert mask w.
  induction data as [| x data IH]; intros [| m mask] [| wx w] Hm Hw;
    cbn in *; try discriminate; try reflexivity.
  destruct m; cbn; [| f_equal]; apply IH; lia.
Qed.

(** The weights kept by the inverted mask add up to the weights of the
    valid pixels. *)
Lemma valid_weights_total (data : list Q) (mask : list bool) (w : list Q) :
  List.length data = List.length mask ->
  List.length w = List.length data ->
  Qsum (valid_weights (mk_masked data mask) w)
  == weight_total (valid_pixels data mask w).
Proof.
  unfold valid_weights, weight_total. cbn [ma_mask].
  revert mask w.
  induction data as [| x data IH]; intros [| m mask] [| wx w] Hm Hw;
    cbn [zip_with valid_pixels map List.length] in *;
    try discriminate; try reflexivity.
  rewrite Qsum_cons, IH by lia.
  destruct m; cbn [map snd]; [| rewrite Qsum_cons]; ring.
Qed.





(** ** Rebinning *)

Lemma Zsum_from (l : list Z) (acc : Z) :
  fold_left Z.add l acc = (acc + Zsum l)%Z.
Proof.
  unfold Zsum. revert acc.
  induction l as [| x l IH]; intros acc; cbn [fold_left]; [lia |].
  rewrite (IH (acc + x)%Z), (IH (0 + x)%Z). lia.
Qed.

Lemma Zsum_cons (x : Z) (l : list Z) : Zsum (x :: l) = (x + Zsum l)%Z.
Proof. unfold Zsum at 1. cbn [fold_left]. rewrite Zsum_from. lia. Qed.

Lemma Zsum_nonneg (l : list Z) :
  Forall (fun x => 0 <= x)%Z l -> (0 <= Zsum l)%Z.
Proof.
  induction 1 as [| x l Hx _ IH]; [reflexivity |].
  rewrite Zsum_cons. lia.
Qed.

(** A sum of [n] items between 0 and [m] is between 0 and [n * m]. *)
Lemma Zsum_map_bounds {A : Type} (g : A -> Z) (l : list A) (m : Z) :
  (forall x, In x l -> 0 <= g x <= m)%Z ->
  (0 <= Zsum (map g l) <= Z.of_nat (List.length l) * m)%Z.
Proof.
  induction l as [| x l IH]; intros Hg.
  - cbn. lia.
  - cbn [map List.length]. rewrite Zsum_cons.
    assert (0 <= g x <= m)%Z by (apply Hg; now left).
    assert (0 <= Zsum (map g l) <= Z.of_nat (List.length l) * m)%Z
      by (apply IH; intros y Hy; apply Hg; now right).
    lia.
Qed.

(** A slice of a list, item by item. *)
Lemma firstn_skipn_seq {A : Type} (dflt : A) (l : list A) (k n : nat) :
  (k + n <= List.length l)%nat ->
  firstn n (skipn k l) = map (fun off => nth (k + off) l dflt) (seq 0 n).
Proof.
  revert k l.
  induction n as [| n IH]; intros k l Hlen; [reflexivity |].
  cbn [seq map]. rewrite <- seq_shift, map_map.
  destruct (skipn k l) as [| x rest] eqn:Hskip.
  - apply (f_equal (@List.length A)) in Hskip.
    rewrite length_skipn in Hskip. cbn in Hskip. lia.
  - cbn [firstn]. f_equal.
    + rewrite Nat.add_0_r.
      rewrite <- (firstn_skipn k l) at 1.
      rewrite Hskip, app_nth2 by (rewrite length_firstn; lia).
      rewrite length_firstn, Nat.min_l by lia.
      now rewrite Nat.sub_diag.
    + assert (Hrest : rest = skipn (S k) l).
      { change (S k) with (1 + k)%nat. rewrite <- skipn_skipn, Hskip.
        reflexivity. }
      rewrite Hrest, (IH (S k) l) by lia.
      apply map_ext. intros off. f_equal. lia.
Qed.

(** The pieces [take_chunks] cuts, one for each index. *)
Lemma take_chunks_seq {A : Type} (count size : nat) (l : list A) :
  take_chunks count size l =
  map (fun i => firstn size (skipn (i * size) l)) (seq 0 count).
Proof.
  revert l.
  induction count as [| count IH]; intros l; [reflexivity |].
  cbn [take_chunks seq map]. f_equal.
  rewrite IH, <- seq_shift, map_map.
  apply map_ext. intros i. rewrite skipn_skipn. do 2 f_equal. lia.
Qed.

(** A slice of a slice is a slice. *)
Lemma firstn_skipn_nested {A : Type} (l : list A) (a b k n : nat) :
  (k + n <= b)%nat ->
  firstn n (skipn k (firstn b (skipn a l))) = firstn n (skipn (a + k) l).
Proof.
  intros Hle.
  rewrite skipn_firstn_comm, firstn_firstn, skipn_skipn.
  rewrite Nat.min_l by lia. do 2 f_equal. lia.
Qed.

(** The four-dimensional view of [reshape4]: item [(i, di, j)] of the
    first three axes is the run of [n3] items that starts at
    [((i * n1 + di) * n2 + j) * n3]. *)
Lemma reshape4_seq {A : Type} (n0 n1 n2 n3 : nat) (items : list A) :
  reshape4 (n0, n1, n2, n3) items =
  map (fun i =>
         map (fun di =>
                map (fun j =>
                       firstn n3 (skipn (((i * n1 + di) * n2 + j) * n3) items))
                    (seq 0 n2))
             (seq 0 n1))
      (seq 0 n0).
Proof.
  unfold reshape4. rewrite take_chunks_seq, map_map.
  apply map_ext. intros i.
  rewrite take_chunks_seq, map_map.
  apply map_ext_in. intros di Hdi. apply in_seq in Hdi.
  rewrite take_chunks_seq.
  apply map_ext_in. intros j Hj. apply in_seq in Hj.
  assert (Hin : (j * n3 + n3 <= n2 * n3)%nat).
  { replace (j * n3 + n3)%nat with (S j * n3)%nat by lia.
    apply Nat.mul_le_mono_r. lia. }
  assert (Hmid : (di * (n2 * n3) + n2 * n3 <= n1 * n2 * n3)%nat).
  { replace (di * (n2 * n3) + n2 * n3)%nat with (S di * (n2 * n3))%nat by lia.
    rewrite <- Nat.mul_assoc. apply Nat.mul_le_mono_r. lia. }
  rewrite (firstn_skipn_nested _ (di * (n2 * n3)) (n2 * n3) (j * n3) n3 Hin).
  rewrite (firstn_skipn_nested items (i * (n1 * n2 * n3)) (n1 * n2 * n3)
                               (di * (n2 * n3) + j * n3) n3) by lia.
  do 2 f_equal. lia.
Qed.

Section ExactSums.

Variable dt : dtype.
Variable bound : Z.
Hypothesis wrap_small : forall z, (0 <= z <= bound)%Z -> wrap dt z = z.

(** A sum accumulated in [dt] is the exact sum while it stays within
    the bound. *)
Lemma fold_add_dtype_exact (l : list Z) (acc : Z) :
  Forall (fun x => 0 <= x)%Z l ->
  (0 <= acc)%Z ->
  (acc + Zsum l <= bound)%Z ->
  fold_left (add_dtype dt) (map (wrap dt) l) acc = (acc + Zsum l)%Z.
Proof.
  intros Hpos. revert acc.
  induction Hpos as [| x l Hx Hl IH]; intros acc Hacc Hle.
  - cbn. lia.
  - rewrite Zsum_cons in *. cbn [map fold_left].
    pose proof (Zsum_nonneg l Hl) as Hsum.
    rewrite (wrap_small x) by lia.
    unfold add_dtype at 2. rewrite (wrap_small (acc + x)) by lia.
    rewrite IH by lia. lia.
Qed.

Lemma sum_dtype_exact (l : list Z) :
  Forall (fun x => 0 <= x)%Z l ->
  (Zsum l <= bound)%Z ->
  sum_dtype dt l = Zsum l.
Proof.
  intros Hpos Hle. unfold sum_dtype.
  rewrite fold_add_dtype_exact; auto; lia.
Qed.

Lemma zip_with_map {A B C D : Type} (h : B -> C -> D) (p : A -> B)
      (q : A -> C) (l : list A) :
  zip_with h (map p l) (map q l) = map (fun x => h (p x) (q x)) l.
Proof.
  induction l as [| x l IH]; cbn; [reflexivity | now rewrite IH].
Qed.

(** The sum along the second axis: rows given item by item are added
    column by column, exactly while every column stays within the
    bound. *)
Lemma fold_columns_exact (cells : nat -> nat -> Z) (rows : list nat)
      (cols : list nat) (start : nat -> Z) :
  (forall di j, In di rows -> In j cols -> 0 <= cells di j)%Z ->
  (forall j, In j cols ->
             0 <= start j /\
             start j + Zsum (map (fun di => cells di j) rows) <= bound)%Z ->
  fold_left (zip_with (add_dtype dt))
            (map (map (wrap dt)) (map (fun di => map (cells di) cols) rows))
            (map start cols)
  = map (fun j => start j + Zsum (map (fun di => cells di j) rows))%Z cols.
Proof.
  revert start.
  induction rows as [| di rows IH]; intros start Hpos Hle.
  - cbn. apply map_ext. intros j. lia.
  - cbn [map fold_left].
    rewrite (map_map (cells di) (wrap dt) cols), zip_with_map.
    assert (Hstep : map (fun j => add_dtype dt (start j) (wrap dt (cells di j))) cols
                    = map (fun j => start j + cells di j)%Z cols).
    { apply map_ext_in. intros j Hj.
      destruct (Hle j Hj) as [Hs Hb]. cbn [map] in Hb.
      rewrite Zsum_cons in Hb.
      assert (0 <= cells di j)%Z by (apply Hpos; [now left | exact Hj]).
      assert (0 <= Zsum (map (fun d => cells d j) rows))%Z.
      { apply Zsum_nonneg, Forall_map, Forall_forall.
        intros d Hd. apply Hpos; [now right | exact Hj]. }
      unfold add_dtype. rewrite (wrap_small (cells di j)) by lia.
      apply wrap_small. lia. }
    rewrite Hstep, IH.
    + apply map_ext. intros j. cbn [map]. rewrite Zsum_cons. lia.
    + intros d j Hd Hj. apply Hpos; [now right | exact Hj].
    + intros j Hj. destruct (Hle j Hj) as [Hs Hb]. cbn [map] in Hb.
      rewrite Zsum_cons in Hb.
      assert (0 <= cells di j)%Z by (apply Hpos; [now left | exact Hj]).
      lia.
Qed.

End ExactSums.

Lemma repeat_as_map {A : Type} (x : A) (n : nat) :
  repeat x n = map (fun _ => x) (seq 0 n).
Proof.
  induction n as [| n IH]; [reflexivity |].
  cbn [repeat seq map]. now rewrite IH, <- seq_shift, map_map.
Qed.

(** Item [(i, j)] of a grid written row after row. *)
Lemma nth_concat_grid {A : Type} (cell : nat -> nat -> A) (dflt : A)
      (rows cols i j : nat) :
  (i < rows)%nat -> (j < cols)%nat ->
  nth (i * cols + j)
      (List.concat (map (fun r => map (cell r) (seq 0 cols)) (seq 0 rows)))
      dflt
  = cell i j.
Proof.
  intros Hi Hj.
  assert (Hgen : forall n base i',
             (i' < n)%nat ->
             nth (i' * cols + j)
                 (List.concat
                    (map (fun r => map (cell r) (seq 0 cols)) (seq base n)))
                 dflt
             = cell (base + i')%nat j).
  { induction n as [| n IHn]; intros base i' Hlt; [lia |].
    cbn [seq map List.concat].
    destruct i' as [| i'].
    - rewrite app_nth1 by (rewrite length_map, length_seq; lia).
      cbn [Nat.mul Nat.add].
      rewrite (nth_indep _ dflt (cell base 0%nat))
        by (rewrite length_map, length_seq; lia).
      rewrite (map_nth (cell base)), seq_nth by lia.
      now rewrite Nat.add_0_r.
    - rewrite app_nth2 by (rewrite length_map, length_seq; nia).
      rewrite length_map, length_seq.
      replace (S i' * cols + j - cols)%nat with (i' * cols + j)%nat by nia.
      rewrite IHn by lia.
      f_equal. lia. }
  rewrite (Hgen rows 0%nat i Hi). reflexivity.
Qed.

(** A value up to [v] is stored unchanged in [min_scalar_type v]. *)
Lemma wrap_min_scalar_type (v z : Z) :
  (0 <= z <= v)%Z -> wrap (min_scalar_type v) z = z.
Proof.
  intros Hz. unfold min_scalar_type.
  destruct (Z.leb_spec 0 v); [| lia].
  repeat match goal with
         | |- context [(v <=? ?k)%Z] => destruct (Z.leb_spec v k)
         end;
    cbn [wrap]; try reflexivity; apply Z.mod_small; lia.
Qed.


(** [rebin_sum] of an array of [rows * scale] by [cols * scale] items, to
    the shape [(rows, cols)]: item [(i, j)] is the number of covered items
    in block [(i, j)], when the type holds [scale * scale]. *)
Lemma rebin_sum_blocks (arr : ndarray bool) (rows cols scale : nat)
      (dt : dtype) (bound : Z) :
  (forall z, (0 <= z <= bound)%Z -> wrap dt z = z) ->
  (Z.of_nat scale * Z.of_nat scale <= bound)%Z ->
  nd_shape arr = (rows * scale, cols * scale)%nat ->
  List.length (nd_items arr) = (rows * scale * (cols * scale))%nat ->
  (0 < rows)%nat -> (0 < cols)%nat ->
  rebin_sum arr (rows, cols) dt =
  Ok (mk_ndarray (rows, cols)
        (List.concat
           (map (fun i => map (fun j => block_count arr scale i j) (seq 0 cols))
                (seq 0 rows)))).
Proof.
  intros Hwrap Hbound Hshape Hlen Hrows Hcols.
  destruct arr as [shape items]. cbn [nd_shape nd_items] in *. subst shape.
  unfold rebin_sum. cbn [nd_shape nd_items fst snd].
  destruct (Nat.eqb_spec rows 0); [lia |].
  destruct (Nat.eqb_spec cols 0); [lia |].
  cbn [orb].
  rewrite (Nat.mul_comm rows scale), (Nat.mul_comm cols scale).
  rewrite !Nat.div_mul by assumption.
  replace (rows * scale * cols * scale =? List.length items)%nat with true
    by (symmetry; apply Nat.eqb_eq; lia).
  cbn [negb]. do 3 f_equal.
  rewrite reshape4_seq. unfold sum_last, sum_axis1.
  rewrite !map_map.
  apply map_ext_in. intros i Hi. apply in_seq in Hi.
  rewrite repeat_as_map, (map_map _ (map (sum_dtype dt))).
  (* the cells of block row [i], exactly summed along the last axis *)
  set (cell := fun di j : nat =>
                 Zsum (map (fun dj =>
                              b2z (nd_get (mk_ndarray (scale * rows, scale * cols)%nat items)
                                          false (i * scale + di) (j * scale + dj)))
                           (seq 0 scale))).
  assert (Hcell_bounds : forall di j, (0 <= cell di j <= Z.of_nat scale)%Z).
  { intros di j. unfold cell.
    pose proof (Zsum_map_bounds
                  (fun dj => b2z (nd_get (mk_ndarray (scale * rows, scale * cols)%nat items)
                                         false (i * scale + di) (j * scale + dj)))
                  (seq 0 scale) 1) as Hb.
    rewrite length_seq in Hb.
    assert (forall x, In x (seq 0 scale) ->
                      (0 <= b2z (nd_get (mk_ndarray (scale * rows, scale * cols)%nat items)
                                        false (i * scale + di) (j * scale + x)) <= 1)%Z)
      by (intros x _; destruct (nd_get _ _ _ _); cbn; lia).
    specialize (Hb H). lia. }
  assert (Hrows_eq :
            map (fun di =>
                   map (sum_dtype dt)
                       (map (fun j =>
                               firstn scale
                                 (skipn (((i * scale + di) * cols + j) * scale)
                                        (map b2z items)))
                            (seq 0 cols)))
                (seq 0 scale)
            = map (fun di => map (cell di) (seq 0 cols)) (seq 0 scale)).
  { apply map_ext_in. intros di Hdi. apply in_seq in Hdi.
    rewrite map_map.
    apply map_ext_in. intros j Hj. apply in_seq in Hj.
    assert (Hslice : firstn scale
                       (skipn (((i * scale + di) * cols + j) * scale)
                              (map b2z items))
                     = map (fun dj =>
                              b2z (nd_get (mk_ndarray (scale * rows, scale * cols)%nat items)
                                          false (i * scale + di) (j * scale + dj)))
                           (seq 0 scale)).
    { assert (H1 : (i * scale + di + 1 <= rows * scale)%nat) by nia.
      assert (H2 : ((i * scale + di) * cols + j + 1 <= rows * scale * cols)%nat)
        by nia.
      assert (H3 : (((i * scale + di) * cols + j + 1) * scale
                    <= rows * scale * cols * scale)%nat)
        by (apply Nat.mul_le_mono_r; exact H2).
      rewrite (firstn_skipn_seq 0%Z) by (rewrite length_map; lia).
      apply map_ext. intros dj. unfold nd_get. cbn [nd_shape nd_items snd].
      change 0%Z with (b2z false). rewrite map_nth.
      do 2 f_equal. lia. }
    rewrite Hslice. apply (sum_dtype_exact dt bound Hwrap).
    - apply Forall_map, Forall_forall. intros dj _.
      destruct (nd_get _ _ _ _); cbn; lia.
    - fold (cell di j). pose proof (Hcell_bounds di j). nia. }
  rewrite Hrows_eq.
  rewrite (fold_columns_exact dt bound Hwrap cell (seq 0 scale) (seq 0 cols)
                              (fun _ => 0%Z)).
  - apply map_ext. intros j. rewrite Z.add_0_l. reflexivity.
  - intros di j _ _. apply Hcell_bounds.
  - intros j _. split; [lia |].
    pose proof (Zsum_map_bounds (fun di => cell di j) (seq 0 scale)
                                (Z.of_nat scale)) as Hb.
    rewrite length_seq in Hb.
    specialize (Hb (fun di _ => Hcell_bounds di j)). lia.
Qed.

Lemma length_concat_grid {A : Type} (cell : nat -> nat -> A) (rows cols : nat) :
  List.length
    (List.concat (map (fun r => map (cell r) (seq 0 cols)) (seq 0 rows)))
  = (rows * cols)%nat.
Proof.
  generalize 0%nat at 2.
  induction rows as [| rows IH]; intros base; [reflexivity |].
  cbn [seq map List.concat].
  rewrite length_app, length_map, length_seq, IH. lia.
Qed.

Section PctCoverProperties.

Variable geometry : Type.
Variable features_rasterize :
  geometry -> Z * Z -> Affine.t -> bool -> result (list Z).

(** An empty window makes [rebin_sum] divide by zero. *)
Lemma rebin_sum_empty_window (arr : ndarray bool) (shape : nat * nat)
      (dt : dtype) :
  fst shape = 0%nat \/ snd shape = 0%nat ->
  rebin_sum arr shape dt =
  Raise (ZeroDivisionError "integer division or modulo by zero").
Proof.
  intros Hzero. unfold rebin_sum. destruct (nd_shape arr) as [r c].
  destruct Hzero as [-> | ->]; cbn [Nat.eqb orb]; [reflexivity |].
  now rewrite orb_true_r.
Qed.


End PctCoverProperties.


(* ===================================================================== *)
(** * Part III: further properties of the code                            *)
(* ===================================================================== *)

(** ** More on the validation of statistic names *)

(** X1: [check_stats] fails in one way only, with a [ValueError]. *)
Theorem check_stats_only_value_error (stats : stats_arg) (categorical : bool)
        (e : exn) :
  check_stats stats categorical = Raise e ->
  exists msg, e = ValueError msg.
Proof.
  intros Hraise.
  destruct (check_stats_raises_value_error stats categorical) as [H | H];
    rewrite Hraise in H; cbn in H; [discriminate |].
  destruct e as [msg | msg]; [now exists msg | discriminate].
Qed.

(** [check_stats(['mode'], False)] raises a [ValueError]. *)
Lemma check_stats_only_value_error_witness :
  check_stats (StatsList ["mode"]) false
  = Raise (ValueError "Stat `mode` not valid; must be one of VALID_STATS") /\
  exists msg,
    ValueError "Stat `mode` not valid; must be one of VALID_STATS"
    = ValueError msg.
Proof.
  split; [reflexivity |].
  apply (check_stats_only_value_error (StatsList ["mode"]) false).
  reflexivity.
Defined.

Lemma check_stats_ok_inv (stats : stats_arg) (categorical : bool)
      (l : list string) (run_count : bool) :
  check_stats stats categorical = Ok (l, run_count) ->
  validate_names l = Ok tt /\
  run_count = (categorical || PyStr.mem "majority" l || PyStr.mem "minority" l
               || PyStr.mem "unique" l) /\
  l = (if negb (truthy stats) then
         if negb categorical then DEFAULT_STATS else []
       else
         match stats with
         | StatsStr s =>
             if PyStr.mem s ["*"; "ALL"] then VALID_STATS else PyStr.split s
         | StatsList l0 => l0
         | StatsNone => []
         end).
Proof.
  unfold check_stats.
  match goal with
  | |- context [validate_names ?x] => set (resolved := x)
  end.
  destruct (validate_names resolved) as [[] | err] eqn:Hval;
    cbn [bind]; [| discriminate].
  intros [= <- <-]. auto.
Qed.

(** X2: what [check_stats] returns has been validated: every returned name
    is one of [VALID_STATS] or a percentile name [get_percentile] accepts,
    and the counting pass is requested exactly when [categorical] is on or
    one of majority, minority and unique is among the names. *)
Theorem check_stats_result_validated (stats : stats_arg) (categorical : bool)
        (l : list string) (run_count : bool) :
  check_stats stats categorical = Ok (l, run_count) ->
  (forall x, In x l ->
             In x VALID_STATS \/
             (PyStr.startswith x "percentile_" = true /\
              exists q, get_percentile x = Ok q)) /\
  (run_count = true <->
   categorical = true \/ In "majority" l \/ In "minority" l \/ In "unique" l).
Proof.
  intros Hok. apply check_stats_ok_inv in Hok.
  destruct Hok as (Hval & Hrun & _). split.
  - apply validate_names_ok_iff in Hval. rewrite forallb_forall in Hval.
    intros x Hin. specialize (Hval x Hin). unfold name_accepted in Hval.
    destruct (PyStr.startswith x "percentile_").
    + right. split; [reflexivity |].
      destruct (get_percentile x) as [q | err]; [now exists q | discriminate].
    + left. now apply mem_true_iff.
  - rewrite Hrun, !orb_true_iff, !mem_true_iff. tauto.
Qed.

(** The request ["count percentile_90 unique"]. *)
Lemma check_stats_result_validated_witness :
  check_stats (StatsStr "count percentile_90 unique") false
  = Ok (["count"; "percentile_90"; "unique"], true) /\
  (true = true <->
   false = true \/ In "majority" ["count"; "percentile_90"; "unique"] \/
   In "minority" ["count"; "percentile_90"; "unique"] \/
   In "unique" ["count"; "percentile_90"; "unique"]).
Proof.
  assert (H : check_stats (StatsStr "count percentile_90 unique") false
              = Ok (["count"; "percentile_90"; "unique"], true))
    by reflexivity.
  split; [exact H |].
  exact (proj2 (check_stats_result_validated _ _ _ _ H)).
Defined.

(** An accepted list of names comes back as it was given: the order is
    kept and a name given twice is returned twice. *)
Theorem check_stats_keeps_list (names : list string) (categorical : bool)
        (l : list string) (run_count : bool) :
  names <> [] ->
  check_stats (StatsList names) categorical = Ok (l, run_count) ->
  l = names.
Proof.
  intros Hne Hok. apply check_stats_ok_inv in Hok.
  destruct Hok as (_ & _ & ->).
  destruct names; [congruence | reflexivity].
Qed.

(** The list [['max', 'min', 'max']]. *)
Lemma check_stats_keeps_list_witness :
  ["max"; "min"; "max"] <> [] /\
  check_stats (StatsList ["max"; "min"; "max"]) false
  = Ok (["max"; "min"; "max"], false) /\
  ["max"; "min"; "max"] = ["max"; "min"; "max"].
Proof.
  assert (Hne : ["max"; "min"; "max"] <> []) by discriminate.
  assert (H : check_stats (StatsList ["max"; "min"; "max"]) false
              = Ok (["max"; "min"; "max"], false)) by reflexivity.
  split; [exact Hne | split; [exact H |]].
  exact (check_stats_keeps_list _ _ _ _ Hne H).
Defined.

(** X3: a request given as a string other than ['*'] and ['ALL'] is
    validated as the list of its fields between white space; a string of
    white space only resolves to no statistic at all, not to the
    default. *)
Theorem check_stats_string_as_fields (s : string) (categorical : bool) :
  s <> "" -> s <> "*" -> s <> "ALL" ->
  (PyStr.split s <> [] ->
   check_stats (StatsStr s) categorical
   = check_stats (StatsList (PyStr.split s)) categorical) /\
  (PyStr.split s = [] ->
   check_stats (StatsStr s) categorical = Ok ([], categorical)).
Proof.
  intros Hne Hstar Hall.
  assert (Hsel : PyStr.mem s ["*"; "ALL"] = false).
  { apply not_true_is_false. rewrite mem_true_iff. cbn. intuition congruence. }
  assert (Htruthy : truthy (StatsStr s) = true).
  { cbn. apply negb_true_iff. now apply String.eqb_neq. }
  unfold check_stats. rewrite Htruthy, Hsel. cbn [negb].
  split.
  - intros Hfields. destruct (PyStr.split s) as [| x rest]; [congruence |].
    reflexivity.
  - intros ->. cbn. now rewrite !orb_false_r.
Qed.

(** The strings ["min  max"] and [" "]. *)
Lemma check_stats_string_as_fields_witness :
  check_stats (StatsStr "min  max") false
  = check_stats (StatsList ["min"; "max"]) false /\
  check_stats (StatsStr " ") false = Ok ([], false).
Proof.
  split.
  - apply (proj1 (check_stats_string_as_fields "min  max" false
                    ltac:(discriminate) ltac:(discriminate)
                    ltac:(discriminate))).
    discriminate.
  - apply (proj2 (check_stats_string_as_fields " " false
                    ltac:(discriminate) ltac:(discriminate)
                    ltac:(discriminate))).
    reflexivity.
Defined.

(** X4: validating again what [check_stats] returned changes nothing, as
    long as the returned list is not empty or [categorical] is on. *)
Theorem check_stats_idempotent (stats : stats_arg) (categorical : bool)
        (l : list string) (run_count : bool) :
  check_stats stats categorical = Ok (l, run_count) ->
  l <> [] \/ categorical = true ->
  check_stats (StatsList l) categorical = Ok (l, run_count).
Proof.
  intros Hok Hcase. apply check_stats_ok_inv in Hok.
  destruct Hok as (Hval & Hrun & _).
  unfold check_stats.
  destruct l as [| x rest].
  - destruct Hcase as [H | ->]; [congruence |]. cbn in *. now subst.
  - cbn [truthy negb]. rewrite Hval. cbn [bind]. now subst.
Qed.

(** No request at all, [categorical] off: the default comes back. *)
Lemma check_stats_idempotent_witness :
  check_stats StatsNone false = Ok (["count"; "min"; "max"; "mean"], false) /\
  check_stats (StatsList ["count"; "min"; "max"; "mean"]) false
  = Ok (["count"; "min"; "max"; "mean"], false).
Proof.
  assert (H : check_stats StatsNone false
              = Ok (["count"; "min"; "max"; "mean"], false)) by reflexivity.
  split; [exact H |].
  apply (check_stats_idempotent StatsNone false _ _ H).
  left. discriminate.
Defined.

(** The empty result of a string of white space is not kept when
    [categorical] is off: validated again, it becomes the default. *)
Example check_stats_blank_not_idempotent :
  check_stats (StatsStr " ") false = Ok ([], false) /\
  check_stats (StatsList []) false = Ok (DEFAULT_STATS, false).
Proof. split; reflexivity. Qed.

Lemma validate_names_valid (l : list string) :
  Forall (fun x => In x VALID_STATS) l -> validate_names l = Ok tt.
Proof.
  intros Hall. apply validate_names_ok_iff, forallb_forall.
  rewrite Forall_forall in Hall. intros x Hin. specialize (Hall x Hin).
  unfold name_accepted.
  assert (Hpre : PyStr.startswith x "percentile_" = false).
  { cbn in Hall.
    repeat (destruct Hall as [<- | Hall]; [reflexivity |]). contradiction. }
  rewrite Hpre. now apply mem_true_iff.
Qed.

(** X5: every list of names taken from [VALID_STATS], in any order and
    with repetitions, is accepted. *)
Theorem check_stats_accepts_valid_names (names : list string)
        (categorical : bool) :
  names <> [] ->
  Forall (fun x => In x VALID_STATS) names ->
  check_stats (StatsList names) categorical
  = Ok (names,
        categorical || PyStr.mem "majority" names
        || PyStr.mem "minority" names || PyStr.mem "unique" names).
Proof.
  intros Hne Hall. unfold check_stats.
  destruct names as [| x rest]; [congruence |].
  cbn [truthy negb]. rewrite (validate_names_valid _ Hall). reflexivity.
Qed.

(** The list [['nan', 'sum', 'nan', 'majority']]. *)
Lemma check_stats_accepts_valid_names_witness :
  check_stats (StatsList ["nan"; "sum"; "nan"; "majority"]) false
  = Ok (["nan"; "sum"; "nan"; "majority"], true).
Proof.
  apply (check_stats_accepts_valid_names
           ["nan"; "sum"; "nan"; "majority"] false).
  - discriminate.
  - apply Forall_forall.
    intros x [<- | [<- | [<- | [<- | []]]]]; cbn; tauto.
Defined.

(** ** More on percentile names *)

(** Two binary64 values that are not NaN compare. *)
Lemma SFcompare_defined (x y : spec_float) :
  x <> S754_nan -> y <> S754_nan -> SFcompare x y <> None.
Proof.
  destruct x, y; cbn; congruence.
Qed.

Lemma not_lt_le (x y : PyFloat.float) :
  x <> S754_nan -> y <> S754_nan ->
  PyFloat.lt x y = false -> PyFloat.le y x = true.
Proof.
  intros Hx Hy. unfold PyFloat.lt, PyFloat.le, SFltb, SFleb.
  rewrite (SFcompare_antisym x y).
  pose proof (SFcompare_defined x y Hx Hy) as Hdef.
  destruct (SFcompare x y) as [[| |] |]; cbn; congruence.
Qed.

(** X6: a value [get_percentile] returns is a NaN or lies between 0 and
    100, the two ends included. *)
Theorem get_percentile_result_range (stat : string) (q : PyFloat.float) :
  get_percentile stat = Ok q ->
  q = S754_nan \/
  (PyFloat.le (PyFloat.of_Z 0) q = true /\
   PyFloat.le q (PyFloat.of_Z 100) = true).
Proof.
  intros Hok. apply get_percentile_ok_iff in Hok.
  destruct Hok as (_ & _ & Hgt & Hlt).
  destruct q as [s | s | | s m e]; [right | right | now left | right];
    (split; [apply not_lt_le; [discriminate | discriminate | exact Hlt]
            | apply not_lt_le; [discriminate | discriminate | exact Hgt]]).
Qed.

(** The name [percentile_90]. *)
Lemma get_percentile_result_range_witness :
  exists q,
    get_percentile "percentile_90" = Ok q /\
    (q = S754_nan \/
     (PyFloat.le (PyFloat.of_Z 0) q = true /\
      PyFloat.le q (PyFloat.of_Z 100) = true)).
Proof.
  exists (PyFloat.of_Z 90).
  assert (H : get_percentile "percentile_90" = Ok (PyFloat.of_Z 90))
    by reflexivity.
  split; [exact H |].
  exact (get_percentile_result_range "percentile_90" _ H).
Defined.

Lemma prefix_app (p v : string) : String.prefix p (p ++ v)%string = true.
Proof.
  induction p as [| c p IH]; cbn.
  - now destruct v.
  - destruct (ascii_dec c c); [exact IH | congruence].
Qed.

(** Skipping the rest of an occurrence. *)
Lemma replace_from_skip (old new p v : string) :
  PyStr.replace_from old new (String.length p) (p ++ v)%string
  = PyStr.replace_from old new 0 v.
Proof.
  induction p as [| c p IH]; cbn [String.length append].
  - reflexivity.
  - cbn [PyStr.replace_from]. exact IH.
Qed.

(** [replace] on a string that starts with [old]. *)
Lemma replace_leading (old_head : ascii) (old_tail new v : string) :
  PyStr.replace (String old_head old_tail ++ v)%string
                (String old_head old_tail) new
  = (new ++ PyStr.replace v (String old_head old_tail) new)%string.
Proof.
  unfold PyStr.replace.
  cbn [append]. cbn [PyStr.replace_from].
  change (String old_head (old_tail ++ v)%string)
    with (String old_head old_tail ++ v)%string.
  rewrite prefix_app.
  replace (String.length (String old_head old_tail) - 1)%nat
    with (String.length old_tail) by (cbn [String.length]; lia).
  now rewrite replace_from_skip.
Qed.

(** [replace] on a string [old] does not occur in. *)
Lemma replace_absent (old new v : string) :
  PyStr.contains old v = false -> PyStr.replace v old new = v.
Proof.
  unfold PyStr.replace.
  induction v as [| c v IH]; intros Habs; [reflexivity |].
  cbn [PyStr.contains] in Habs. apply orb_false_iff in Habs.
  destruct Habs as [Hpre Hrest].
  cbn [PyStr.replace_from]. rewrite Hpre. f_equal. now apply IH.
Qed.

(** X7: the number of a percentile name is read from what follows the
    prefix with every further occurrence of the prefix taken out; when
    there is none, it is read from what follows the prefix as it is. *)
Theorem get_percentile_reads_remainder (v : string) :
  get_percentile ("percentile_" ++ v)%string
  = (q <- PyFloat.of_string (PyStr.replace v "percentile_" "") ;;
     if PyFloat.gt q (PyFloat.of_Z 100)
     then Raise (ValueError "percentiles must be <= 100")
     else if PyFloat.lt q (PyFloat.of_Z 0)
     then Raise (ValueError "percentiles must be >= 0")
     else Ok q) /\
  (PyStr.contains "percentile_" v = false ->
   PyStr.replace v "percentile_" "" = v).
Proof.
  split; [| apply replace_absent].
  unfold get_percentile.
  replace (PyStr.startswith ("percentile_" ++ v)%string "percentile_")
    with true by (symmetry; apply (prefix_app "percentile_" v)).
  cbn [negb].
  rewrite (replace_leading "p" "ercentile_" "" v). reflexivity.
Qed.

(** X8: every name [percentile_<n>] with [n] a whole number from 0 to 100
    in decimal digits is accepted, with the value [n]. *)
Theorem get_percentile_whole_numbers (n : nat) :
  (n <= 100)%nat ->
  get_percentile
    ("percentile_" ++ NilEmpty.string_of_uint (Nat.to_uint n))%string
  = Ok (PyFloat.of_Z (Z.of_nat n)).
Proof.
  intros Hle.
  do 101 (destruct n as [| n]; [vm_compute; reflexivity |]).
  lia.
Qed.

Lemma get_percentile_whole_numbers_witness :
  get_percentile "percentile_75" = Ok (PyFloat.of_Z 75).
Proof.
  apply (get_percentile_whole_numbers 75). lia.
Defined.

(** The name [percentile_50]. *)
Lemma get_percentile_reads_remainder_witness :
  PyStr.contains "percentile_" "50" = false /\
  PyStr.replace "50" "percentile_" "" = "50".
Proof.
  split; [reflexivity |].
  apply (proj2 (get_percentile_reads_remainder "50")). reflexivity.
Defined.

(** ** More on the [--stats] option *)

Lemma split_on_from_not_nil (sep : ascii) (cur s : string) :
  PyStr.split_on_from sep cur s <> [].
Proof.
  revert cur. induction s as [| c s IH]; intros cur; cbn.
  - discriminate.
  - destruct (Ascii.eqb c sep); [discriminate | apply IH].
Qed.

Lemma cli_stats_without_all (s : string) :
  existsb (fun x => String.eqb (PyStr.lower x) "all")
          (PyStr.split_on s " "%char) = false ->
  cli_stats (Some s) = StatsList (PyStr.split_on s " "%char).
Proof.
  intros Hnone. unfold cli_stats.
  assert (Hmem : PyStr.mem "all" (map PyStr.lower (PyStr.split_on s " "%char))
                 = false).
  { apply not_true_is_false. intros Hmem. apply mem_true_iff in Hmem.
    apply in_map_iff in Hmem. destruct Hmem as [x [Hx Hin]].
    assert (existsb (fun x => String.eqb (PyStr.lower x) "all")
                    (PyStr.split_on s " "%char) = true).
    { apply existsb_exists. exists x. split; [exact Hin |].
      now apply String.eqb_eq. }
    congruence. }
  now rewrite Hmem.
Qed.

(** X9: the command line splits the option at every single space, so a
    value with an empty field (a space at an end, two spaces in a row, or
    the empty value) is refused with a [ValueError], unless one of its
    fields reads [all]. *)
Theorem cli_stats_empty_field_rejected (s : string) (categorical : bool) :
  In "" (PyStr.split_on s " "%char) ->
  existsb (fun x => String.eqb (PyStr.lower x) "all")
          (PyStr.split_on s " "%char) = false ->
  cli_stats (Some s) = StatsList (PyStr.split_on s " "%char) /\
  is_value_error (check_stats (cli_stats (Some s)) categorical) = true.
Proof.
  intros Hempty Hnone.
  rewrite (cli_stats_without_all s Hnone). split; [reflexivity |].
  pose proof (split_on_from_not_nil " "%char "" s) as Hne.
  fold (PyStr.split_on s " "%char) in Hne.
  destruct (check_stats_raises_value_error
              (StatsList (PyStr.split_on s " "%char)) categorical)
    as [Hok | Herr]; [| exact Herr].
  apply (check_stats_list_ok_iff _ categorical Hne) in Hok.
  rewrite forallb_forall in Hok. specialize (Hok "" Hempty).
  discriminate Hok.
Qed.

(** The empty value and the value ["min  max"]. *)
Lemma cli_stats_empty_field_rejected_witness :
  is_value_error (check_stats (cli_stats (Some "")) false) = true /\
  is_value_error (check_stats (cli_stats (Some "min  max")) false) = true.
Proof.
  split.
  - apply (cli_stats_empty_field_rejected "" false).
    + cbn. auto.
    + reflexivity.
  - apply (cli_stats_empty_field_rejected "min  max" false).
    + cbn. auto.
    + reflexivity.
Defined.

(** X10: once the option is given, [check_stats] never falls back to the
    default: what it returns is the whole of [VALID_STATS] or the fields
    of the option, one for one. *)
Theorem cli_stats_never_default (s : string) (categorical : bool)
        (l : list string) (run_count : bool) :
  check_stats (cli_stats (Some s)) categorical = Ok (l, run_count) ->
  truthy (cli_stats (Some s)) = true /\
  (l = VALID_STATS \/ l = PyStr.split_on s " "%char).
Proof.
  intros Hok.
  pose proof (split_on_from_not_nil " "%char "" s) as Hne.
  fold (PyStr.split_on s " "%char) in Hne.
  assert (Htruthy : truthy (cli_stats (Some s)) = true).
  { unfold cli_stats. destruct (PyStr.mem _ _); [reflexivity |].
    cbn. destruct (PyStr.split_on s " "%char); [congruence | reflexivity]. }
  split; [exact Htruthy |].
  apply check_stats_ok_inv in Hok. destruct Hok as (_ & _ & ->).
  rewrite Htruthy. cbn [negb].
  unfold cli_stats. destruct (PyStr.mem _ _); [left | right]; reflexivity.
Qed.

(** The value ["min max"]. *)
Lemma cli_stats_never_default_witness :
  check_stats (cli_stats (Some "min max")) false = Ok (["min"; "max"], false) /\
  truthy (cli_stats (Some "min max")) = true.
Proof.
  assert (H : check_stats (cli_stats (Some "min max")) false
              = Ok (["min"; "max"], false)) by reflexivity.
  split; [exact H |].
  exact (proj1 (cli_stats_never_default "min max" false _ _ H)).
Defined.

(** ** More on category remapping *)

Section RemapFurther.

Context {K V : Type}.
Variable K_eqb : K -> K -> bool.
Hypothesis K_eqb_eq : forall x y, K_eqb x y = true <-> x = y.

Lemma K_in_dec (k : K) (l : list K) : In k l \/ ~ In k l.
Proof.
  induction l as [| x l IH]; [now right |].
  destruct (K_eqb x k) eqn:E.
  - apply K_eqb_eq in E. left. now left.
  - destruct IH as [IH | IH]; [left; now right |].
    right. intros [-> | Hin]; [| contradiction].
    rewrite (K_eqb_refl K_eqb K_eqb_eq) in E. discriminate.
Qed.

(** Assigning to a key that is present keeps the keys. *)
Lemma dict_keys_set_present (d : dict K V) (k : K) (v : V) :
  In k (dict_keys d) -> dict_keys (dict_set K_eqb d k v) = dict_keys d.
Proof.
  induction d as [| [k' v'] d IH]; cbn; intros Hin; [contradiction |].
  destruct (K_eqb k' k) eqn:E; [reflexivity |].
  cbn. f_equal. apply IH. destruct Hin as [-> | Hin]; [| exact Hin].
  rewrite (K_eqb_refl K_eqb K_eqb_eq) in E. discriminate.
Qed.

Lemma dict_keys_set (d : dict K V) (k : K) (v : V) :
  (In k (dict_keys d) /\ dict_keys (dict_set K_eqb d k v) = dict_keys d) \/
  (~ In k (dict_keys d) /\
   dict_keys (dict_set K_eqb d k v) = dict_keys d ++ [k]).
Proof.
  destruct (K_in_dec k (dict_keys d)) as [Hin | Hout].
  - left. split; [exact Hin | now apply dict_keys_set_present].
  - right. split; [exact Hout |].
    rewrite (dict_set_fresh K_eqb K_eqb_eq) by exact Hout.
    unfold dict_keys. now rewrite map_app.
Qed.

(** Reading after assigning. *)
Lemma dict_get_set (d : dict K V) (k k' : K) (v : V) :
  dict_get K_eqb (dict_set K_eqb d k v) k'
  = if K_eqb k k' then Some v else dict_get K_eqb d k'.
Proof.
  induction d as [| [k0 v0] d IH]; cbn.
  - reflexivity.
  - destruct (K_eqb k0 k) eqn:E; cbn.
    + apply K_eqb_eq in E. subst k0.
      destruct (K_eqb k k'); reflexivity.
    + destruct (K_eqb k0 k') eqn:E'.
      * apply K_eqb_eq in E'. subst k0.
        rewrite (K_eqb_neq K_eqb K_eqb_eq k k'); [reflexivity |].
        intros ->. rewrite (K_eqb_refl K_eqb K_eqb_eq) in E. discriminate.
      * exact IH.
Qed.

Lemma find_app {A : Type} (p : A -> bool) (l l' : list A) :
  find p (l ++ l') = match find p l with
                     | Some x => Some x
                     | None => find p l'
                     end.
Proof.
  induction l as [| x l IH]; cbn; [reflexivity |].
  destruct (p x); [reflexivity | exact IH].
Qed.

(** The comprehension from any start: keys, size and values. *)
Lemma remap_fold_keys (category_map : dict K K) (stats acc : dict K V) :
  NoDup (dict_keys acc) ->
  let out :=
    fold_left
      (fun acc kv =>
         dict_set K_eqb acc (lookup K_eqb category_map (fst kv)) (snd kv))
      stats acc in
  NoDup (dict_keys out) /\
  (List.length out <= List.length acc + List.length stats)%nat /\
  (forall k', In k' (dict_keys out) <->
              In k' (dict_keys acc) \/
              exists k, In k (dict_keys stats) /\
                        k' = lookup K_eqb category_map k).
Proof.
  revert acc.
  induction stats as [| [k v] stats IH]; intros acc Hnd; cbn [fold_left].
  - cbn. repeat split; auto; try lia.
    intros [H | [k [[] _]]]. exact H.
  - cbn [fst snd].
    set (label := lookup K_eqb category_map k).
    assert (Hnd' : NoDup (dict_keys (dict_set K_eqb acc label v))).
    { destruct (dict_keys_set acc label v) as [[_ ->] | [Hout ->]];
        [exact Hnd |].
      apply NoDup_app; [exact Hnd | repeat constructor; intros [] |].
      intros x Hx [<- | []]. contradiction. }
    assert (Hlen : (List.length (dict_set K_eqb acc label v)
                    <= S (List.length acc))%nat).
    { assert (Hl : forall d : dict K V,
                 List.length (dict_keys d) = List.length d)
        by (intros; apply length_map).
      rewrite <- (Hl (dict_set K_eqb acc label v)), <- (Hl acc).
      destruct (dict_keys_set acc label v) as [[_ ->] | [_ ->]];
        rewrite ?length_app; cbn; lia. }
    destruct (IH _ Hnd') as (IH1 & IH2 & IH3).
    split; [exact IH1 | split].
    + cbn [List.length]. lia.
    + intros k'. rewrite IH3. cbn [dict_keys map fst].
      assert (Hkeys : In k' (dict_keys (dict_set K_eqb acc label v)) <->
                      In k' (dict_keys acc) \/ k' = label).
      { destruct (dict_keys_set acc label v) as [[Hin ->] | [_ ->]].
        - split; [tauto | intros [H | ->]; assumption].
        - rewrite in_app_iff. cbn. intuition (subst; auto). }
      rewrite Hkeys. split.
      * intros [[H | ->] | [k0 [Hin ->]]].
        -- now left.
        -- right. exists k. split; [now left | reflexivity].
        -- right. exists k0. split; [now right | reflexivity].
      * intros [H | [k0 [[<- | Hin] ->]]].
        -- left. now left.
        -- left. now right.
        -- right. exists k0. auto.
Qed.

Lemma remap_fold_get (category_map : dict K K) (stats acc : dict K V)
      (k' : K) :
  dict_get K_eqb
    (fold_left
       (fun acc kv =>
          dict_set K_eqb acc (lookup K_eqb category_map (fst kv)) (snd kv))
       stats acc)
    k'
  = match find (fun kv => K_eqb (lookup K_eqb category_map (fst kv)) k')
               (rev stats) with
    | Some kv => Some (snd kv)
    | None => dict_get K_eqb acc k'
    end.
Proof.
  revert acc.
  induction stats as [| [k v] stats IH]; intros acc; cbn [fold_left rev].
  - reflexivity.
  - rewrite IH, find_app. cbn [fst snd].
    destruct (find _ (rev stats)) as [kv |]; [reflexivity |].
    cbn [find fst snd]. rewrite dict_get_set.
    destruct (K_eqb (lookup K_eqb category_map k) k'); reflexivity.
Qed.

(** X11: whatever the category map, the keys of the result are distinct,
    they are the labels of the keys of [stats] and nothing else, and the
    result has no more items than [stats]. *)
Theorem remap_categories_keys (category_map : dict K K) (stats : dict K V) :
  NoDup (dict_keys (remap_categories K_eqb category_map stats)) /\
  (List.length (remap_categories K_eqb category_map stats)
   <= List.length stats)%nat /\
  (forall k', In k' (dict_keys (remap_categories K_eqb category_map stats)) <->
              exists k, In k (dict_keys stats) /\
                        k' = lookup K_eqb category_map k).
Proof.
  destruct (remap_fold_keys category_map stats [] (NoDup_nil K))
    as (Hnd & Hlen & Hkeys).
  split; [exact Hnd | split; [exact Hlen |]].
  intros k'. unfold remap_categories. rewrite Hkeys. cbn. tauto.
Qed.

(** X12: the count found under a label is the count of the last item of
    [stats] whose key has that label; a label no key has is absent. *)
Theorem remap_categories_last_wins (category_map : dict K K)
        (stats : dict K V) (k' : K) :
  dict_get K_eqb (remap_categories K_eqb category_map stats) k'
  = option_map snd
      (find (fun kv => K_eqb (lookup K_eqb category_map (fst kv)) k')
            (rev stats)).
Proof.
  unfold remap_categories. rewrite remap_fold_get.
  destruct (find _ (rev stats)); reflexivity.
Qed.

(** X13: with an empty category map a mapping with distinct keys comes
    back as it is. *)
Theorem remap_categories_empty_map (stats : dict K V) :
  NoDup (dict_keys stats) ->
  remap_categories K_eqb [] stats = stats.
Proof.
  intros Hnd. unfold remap_categories.
  rewrite (remap_fold_fresh K_eqb K_eqb_eq).
  - cbn [app]. rewrite <- (map_id stats) at 2.
    apply map_ext. intros [k v]. reflexivity.
  - rewrite <- (map_id (dict_keys stats)) in Hnd.
    erewrite map_ext; [exact Hnd |]. reflexivity.
  - intros k _ [].
Qed.

End RemapFurther.

(** Three keys, two of them with one label. *)
Lemma remap_categories_keys_witness :
  NoDup (dict_keys
           (remap_categories pykey_eqb
              [(KNum 1, KStr "a"); (KNum 2, KStr "a")]
              [(KNum 1, 3%Z); (KNum 2, 4%Z); (KNum 7, 5%Z)])) /\
  (List.length
     (remap_categories pykey_eqb
        [(KNum 1, KStr "a"); (KNum 2, KStr "a")]
        [(KNum 1, 3%Z); (KNum 2, 4%Z); (KNum 7, 5%Z)]) <= 3)%nat.
Proof.
  destruct (remap_categories_keys pykey_eqb pykey_eqb_eq
              [(KNum 1, KStr "a"); (KNum 2, KStr "a")]
              [(KNum 1, 3%Z); (KNum 2, 4%Z); (KNum 7, 5%Z)])
    as (Hnd & Hlen & _).
  split; [exact Hnd | exact Hlen].
Defined.

Lemma remap_categories_last_wins_witness :
  dict_get pykey_eqb
    (remap_categories pykey_eqb
       [(KNum 1, KStr "a"); (KNum 2, KStr "a")]
       [(KNum 1, 3%Z); (KNum 2, 4%Z); (KNum 7, 5%Z)])
    (KStr "a")
  = Some 4%Z.
Proof.
  exact (remap_categories_last_wins pykey_eqb pykey_eqb_eq
           [(KNum 1, KStr "a"); (KNum 2, KStr "a")]
           [(KNum 1, 3%Z); (KNum 2, 4%Z); (KNum 7, 5%Z)] (KStr "a")).
Defined.

Lemma remap_categories_empty_map_witness :
  NoDup (dict_keys [(KNum 1, 3%Z); (KNum 2, 4%Z)]) /\
  remap_categories pykey_eqb [] [(KNum 1, 3%Z); (KNum 2, 4%Z)]
  = [(KNum 1, 3%Z); (KNum 2, 4%Z)].
Proof.
  assert (Hnd : NoDup (dict_keys [(KNum 1, 3%Z); (KNum 2, 4%Z)])).
  { cbn. repeat constructor; cbn; intuition discriminate. }
  split; [exact Hnd |].
  exact (remap_categories_empty_map pykey_eqb pykey_eqb_eq _ Hnd).
Defined.

(** ** The key of a chosen count *)

Section KeyAssocValProperties.

Context {K V : Type}.
Variable V_eqb : V -> V -> bool.
Hypothesis V_eqb_eq : forall x y, V_eqb x y = true <-> x = y.

(** [index] finds the first occurrence. *)
Lemma list_index_first (before after : list V) (x : V) :
  ~ In x before ->
  list_index V_eqb (before ++ x :: after) x = Ok (List.length before).
Proof.
  induction before as [| y before IH]; cbn; intros Hout.
  - now rewrite (proj2 (V_eqb_eq x x) eq_refl).
  - destruct (V_eqb y x) eqn:E.
    + apply V_eqb_eq in E. tauto.
    + rewrite IH by tauto. reflexivity.
Qed.

Lemma list_index_absent (l : list V) (x : V) :
  ~ In x l -> list_index V_eqb l x = Raise (ValueError "x is not in list").
Proof.
  induction l as [| y l IH]; cbn; intros Hout; [reflexivity |].
  destruct (V_eqb y x) eqn:E.
  - apply V_eqb_eq in E. tauto.
  - rewrite IH by tauto. reflexivity.
Qed.

(** A list that has [x] splits at the first [x]. *)
Lemma in_split_first (l : list V) (x : V) :
  In x l -> exists before after, l = before ++ x :: after /\ ~ In x before.
Proof.
  induction l as [| y l IH]; cbn; intros Hin; [contradiction |].
  destruct (V_eqb y x) eqn:E.
  - apply V_eqb_eq in E. subst y. exists [], l. split; [reflexivity | tauto].
  - assert (Hne : y <> x).
    { intros ->. rewrite (proj2 (V_eqb_eq x x) eq_refl) in E. discriminate. }
    destruct IH as (before & after & -> & Hout); [tauto |].
    exists (y :: before), after. split; [reflexivity |].
    cbn. tauto.
Qed.

(** The items of a dict at the first occurrence of a value. *)
Lemma dict_split_first (d : dict K V) (x : V) :
  In x (map snd d) ->
  exists k before after,
    d = before ++ (k, x) :: after /\ ~ In x (map snd before).
Proof.
  induction d as [| [k v] d IH]; cbn; intros Hin; [contradiction |].
  destruct (V_eqb v x) eqn:E.
  - apply V_eqb_eq in E. subst v. exists k, [], d.
    split; [reflexivity | tauto].
  - assert (Hne : v <> x).
    { intros ->. rewrite (proj2 (V_eqb_eq x x) eq_refl) in E. discriminate. }
    destruct IH as (k' & before & after & -> & Hout); [tauto |].
    exists k', ((k, v) :: before), after. split; [reflexivity |].
    cbn. tauto.
Qed.

(** The key at the first occurrence of the chosen value. *)
Lemma key_assoc_val_first_key_aux (d : dict K V) (func : list V -> result V)
      (x : V) :
  func (map snd d) = Ok x -> In x (map snd d) ->
  exists k before after,
    key_assoc_val V_eqb d func = Ok k /\
    d = before ++ (k, x) :: after /\
    ~ In x (map snd before).
Proof.
  intros Hfunc Hin.
  destruct (dict_split_first d x Hin) as (k & before & after & Hd & Hout).
  exists k, before, after. split; [| split; assumption].
  unfold key_assoc_val. rewrite Hfunc. cbn [bind].
  cbv zeta. rewrite Hd, !map_app. cbn [map fst snd].
  rewrite list_index_first by exact Hout. cbn [bind].
  rewrite length_map, <- (length_map fst before).
  rewrite nth_error_app2 by lia. now rewrite Nat.sub_diag.
Qed.

(** X14: when the reducer returns a value of the dict, [key_assoc_val]
    returns the key of the first item, in the order of the dict, that has
    this value; when it returns a value the dict does not have, a
    [ValueError] is raised; when it raises, so does [key_assoc_val]. *)
Theorem key_assoc_val_first_key (d : dict K V) (func : list V -> result V) :
  (forall x, func (map snd d) = Ok x -> In x (map snd d) ->
             exists k before after,
               key_assoc_val V_eqb d func = Ok k /\
               d = before ++ (k, x) :: after /\
               ~ In x (map snd before)) /\
  (forall x, func (map snd d) = Ok x -> ~ In x (map snd d) ->
             key_assoc_val V_eqb d func
             = Raise (ValueError "x is not in list")) /\
  (forall e, func (map snd d) = Raise e ->
             key_assoc_val V_eqb d func = Raise e).
Proof.
  split; [| split].
  - intros x. apply key_assoc_val_first_key_aux.
  - intros x Hfunc Hout. unfold key_assoc_val.
    rewrite Hfunc. cbn [bind]. now rewrite list_index_absent.
  - intros e Hfunc. unfold key_assoc_val. now rewrite Hfunc.
Qed.

End KeyAssocValProperties.

(** [max_from] returns its start or an item, and nothing is larger. *)
Lemma max_from_spec (l : list Z) (best : Z) :
  (max_from best l = best \/ In (max_from best l) l) /\
  (best <= max_from best l)%Z /\
  Forall (fun x => x <= max_from best l)%Z l.
Proof.
  revert best.
  induction l as [| x l IH]; intros best; cbn [max_from].
  - repeat split; auto. lia.
  - destruct (IH (if (best <? x)%Z then x else best)) as (Hin & Hle & Hall).
    destruct (Z.ltb_spec best x).
    + repeat split.
      * right. destruct Hin as [-> | Hin]; [now left | now right].
      * lia.
      * constructor; [exact Hle | exact Hall].
    + repeat split.
      * destruct Hin as [-> | Hin]; [now left | right; now right].
      * exact Hle.
      * constructor; [lia | exact Hall].
Qed.

Lemma min_from_spec (l : list Z) (best : Z) :
  (min_from best l = best \/ In (min_from best l) l) /\
  (min_from best l <= best)%Z /\
  Forall (fun x => min_from best l <= x)%Z l.
Proof.
  revert best.
  induction l as [| x l IH]; intros best; cbn [min_from].
  - repeat split; auto. lia.
  - destruct (IH (if (x <? best)%Z then x else best)) as (Hin & Hle & Hall).
    destruct (Z.ltb_spec x best).
    + repeat split.
      * right. destruct Hin as [-> | Hin]; [now left | now right].
      * lia.
      * constructor; [exact Hle | exact Hall].
    + repeat split.
      * destruct Hin as [-> | Hin]; [now left | right; now right].
      * exact Hle.
      * constructor; [lia | exact Hall].
Qed.

Lemma Z_eqb_eq (x y : Z) : Z.eqb x y = true <-> x = y.
Proof. apply Z.eqb_eq. Qed.

(** X15: with [max] as the reducer, [key_assoc_val] on a dict of counts
    that is not empty returns a key whose count no other count exceeds,
    the first such key in the order of the dict; on an empty dict it
    raises the [ValueError] of [max]. *)
Theorem key_assoc_val_max {K : Type} (d : dict K Z) :
  (d <> [] ->
   exists k c before after,
     key_assoc_val Z.eqb d py_max = Ok k /\
     d = before ++ (k, c) :: after /\
     Forall (fun kv => snd kv <= c)%Z d /\
     Forall (fun kv => snd kv < c)%Z before) /\
  (d = [] ->
   key_assoc_val Z.eqb d py_max
   = Raise (ValueError "max() arg is an empty sequence")).
Proof.
  split.
  - intros Hne. destruct d as [| [k0 c0] d]; [congruence |].
    set (full := (k0, c0) :: d) in *.
    destruct (max_from_spec (map snd d) c0) as (Hin & Hle & Hall).
    set (c := max_from c0 (map snd d)) in *.
    assert (Hfunc : py_max (map snd full) = Ok c) by reflexivity.
    assert (Hmem : In c (map snd full)).
    { cbn. destruct Hin as [-> | Hin]; [now left | now right]. }
    destruct (key_assoc_val_first_key_aux Z.eqb Z_eqb_eq full py_max
                                          c Hfunc Hmem)
      as (k & before & after & Hres & Hd & Hout).
    assert (Hmax : Forall (fun kv => snd kv <= c)%Z full).
    { apply Forall_forall. intros [k' c'] Hkv. cbn [snd].
      destruct Hkv as [[= <- <-] | Hkv]; [exact Hle |].
      rewrite Forall_forall in Hall. apply Hall.
      change c' with (snd (k', c')). now apply in_map. }
    exists k, c, before, after. repeat split; try assumption.
    apply Forall_forall. intros kv Hkv.
    assert (snd kv <= c)%Z.
    { rewrite Forall_forall in Hmax. apply Hmax. rewrite Hd.
      apply in_or_app. now left. }
    assert (snd kv <> c).
    { intros Heq. apply Hout. rewrite <- Heq. now apply in_map. }
    lia.
  - intros ->. reflexivity.
Qed.

(** The same with [min]: the first key whose count no other count is
    below. *)
Theorem key_assoc_val_min {K : Type} (d : dict K Z) :
  (d <> [] ->
   exists k c before after,
     key_assoc_val Z.eqb d py_min = Ok k /\
     d = before ++ (k, c) :: after /\
     Forall (fun kv => c <= snd kv)%Z d /\
     Forall (fun kv => c < snd kv)%Z before) /\
  (d = [] ->
   key_assoc_val Z.eqb d py_min
   = Raise (ValueError "min() arg is an empty sequence")).
Proof.
  split.
  - intros Hne. destruct d as [| [k0 c0] d]; [congruence |].
    set (full := (k0, c0) :: d) in *.
    destruct (min_from_spec (map snd d) c0) as (Hin & Hle & Hall).
    set (c := min_from c0 (map snd d)) in *.
    assert (Hfunc : py_min (map snd full) = Ok c) by reflexivity.
    assert (Hmem : In c (map snd full)).
    { cbn. destruct Hin as [-> | Hin]; [now left | now right]. }
    destruct (key_assoc_val_first_key_aux Z.eqb Z_eqb_eq full py_min
                                          c Hfunc Hmem)
      as (k & before & after & Hres & Hd & Hout).
    assert (Hmin : Forall (fun kv => c <= snd kv)%Z full).
    { apply Forall_forall. intros [k' c'] Hkv. cbn [snd].
      destruct Hkv as [[= <- <-] | Hkv]; [exact Hle |].
      rewrite Forall_forall in Hall. apply Hall.
      change c' with (snd (k', c')). now apply in_map. }
    exists k, c, before, after. repeat split; try assumption.
    apply Forall_forall. intros kv Hkv.
    assert (c <= snd kv)%Z.
    { rewrite Forall_forall in Hmin. apply Hmin. rewrite Hd.
      apply in_or_app. now left. }
    assert (snd kv <> c).
    { intros Heq. apply Hout. rewrite <- Heq. now apply in_map. }
    lia.
  - intros ->. reflexivity.
Qed.

(** Counts [{1.0: 3, 2.0: 7, 5.0: 7}]: the majority is 2.0, the first of
    the two keys with the largest count. *)
Lemma key_assoc_val_max_witness :
  [(KNum 1, 3%Z); (KNum 2, 7%Z); (KNum 5, 7%Z)] <> [] /\
  key_assoc_val Z.eqb [(KNum 1, 3%Z); (KNum 2, 7%Z); (KNum 5, 7%Z)] py_max
  = Ok (KNum 2).
Proof.
  assert (Hne : [(KNum 1, 3%Z); (KNum 2, 7%Z); (KNum 5, 7%Z)] <> [])
    by discriminate.
  split; [exact Hne |].
  destruct (proj1 (key_assoc_val_max
                     [(KNum 1, 3%Z); (KNum 2, 7%Z); (KNum 5, 7%Z)]) Hne)
    as (k & c & before & after & Hres & _).
  reflexivity.
Defined.

Lemma key_assoc_val_min_witness :
  [(KNum 1, 3%Z); (KNum 2, 7%Z); (KNum 5, 3%Z)] <> [] /\
  key_assoc_val Z.eqb [(KNum 1, 3%Z); (KNum 2, 7%Z); (KNum 5, 3%Z)] py_min
  = Ok (KNum 1).
Proof.
  assert (Hne : [(KNum 1, 3%Z); (KNum 2, 7%Z); (KNum 5, 3%Z)] <> [])
    by discriminate.
  split; [exact Hne |].
  destruct (proj1 (key_assoc_val_min
                     [(KNum 1, 3%Z); (KNum 2, 7%Z); (KNum 5, 3%Z)]) Hne)
    as (k & c & before & after & Hres & _).
  reflexivity.
Defined.

Lemma key_assoc_val_first_key_witness :
  key_assoc_val Z.eqb [(KNum 1, 3%Z); (KNum 2, 7%Z)]
                (fun _ => Ok 9%Z)
  = Raise (ValueError "x is not in list").
Proof.
  apply (proj1 (proj2 (key_assoc_val_first_key Z.eqb Z_eqb_eq
                         [(KNum 1, 3%Z); (KNum 2, 7%Z)]
                         (fun _ => Ok 9%Z))) 9%Z).
  - reflexivity.
  - cbn. intuition discriminate.
Defined.

(** ** More on the coverage-weighted reducers *)

Lemma Qsum_nonneg (l : list Q) : Forall (fun x => 0 <= x) l -> 0 <= Qsum l.
Proof.
  induction 1 as [| x l Hx _ IH]; [apply Qle_refl |].
  rewrite Qsum_cons. lra.
Qed.

Lemma valid_pixels_nil_iff (data : list Q) (mask : list bool) (w : list Q) :
  List.length data = List.length mask ->
  List.length w = List.length data ->
  (valid_pixels data mask w = [] <-> Forall (fun hidden => hidden = true) mask).
Proof.
  revert mask w.
  induction data as [| x data IH]; intros [| m mask] [| wx w] Hm Hw;
    cbn in *; try discriminate.
  - split; constructor.
  - destruct m.
    + rewrite IH by lia. split; [now constructor | now inversion 1].
    + split; [discriminate | inversion 1; discriminate].
Qed.

(** The reducers in terms of the valid pixels and their weights. *)
Lemma rs_reducers_by_valid_pixels (data : list Q) (mask : list bool)
      (w : list Q) :
  List.length data = List.length mask ->
  List.length w = List.length data ->
  let px := valid_pixels data mask w in
  pyfloat_eq (rs_count (mk_masked data mask) (Some w))
             (FNum (weight_total px)) /\
  rs_count (mk_masked data mask) None
  = FNum (inject_Z (Z.of_nat (List.length px))) /\
  rs_sum (mk_masked data mask) (Some w)
  = (if (List.length px =? 0)%nat then FNaN else FNum (weighted_total px)) /\
  rs_sum (mk_masked data mask) None
  = (if (List.length px =? 0)%nat then FNaN else FNum (Qsum (map fst px))) /\
  rs_mean (mk_masked data mask) (Some w)
  = (if (List.length px =? 0)%nat then FNaN
     else np_div (weighted_total px)
                 (Qsum (valid_weights (mk_masked data mask) w))) /\
  rs_mean (mk_masked data mask) None
  = (if (List.length px =? 0)%nat then FNaN
     else FNum (Qsum (map fst px)
                / inject_Z (Z.of_nat (List.length px)))).
Proof.
  intros Hm Hw px.
  assert (Hn : ma_count (mk_masked data mask) = List.length px).
  { unfold ma_count. cbn [ma_data ma_mask]. now apply compressed_length. }
  assert (Hnw : ma_count (ma_mul (mk_masked data mask) w) = List.length px).
  { unfold ma_count, ma_mul. cbn [ma_data ma_mask].
    rewrite compressed_products by assumption. apply length_map. }
  assert (Hvals : compressed data mask = map fst px)
    by now apply compressed_values.
  assert (Hprod : compressed (zip_with Qmult data w) mask
                  = map (fun p => fst p * snd p) px)
    by now apply compressed_products.
  repeat split.
  - cbn [rs_count pyfloat_eq]. now apply valid_weights_total.
  - cbn [rs_count]. now rewrite Hn.
  - cbn [rs_sum]. unfold ma_sum. rewrite Hnw.
    destruct (List.length px =? 0)%nat; [reflexivity |].
    unfold ma_mul. cbn [ma_data ma_mask float_of]. now rewrite Hprod.
  - cbn [rs_sum]. unfold ma_sum. rewrite Hn.
    destruct (List.length px =? 0)%nat; [reflexivity |].
    cbn [ma_data ma_mask float_of]. now rewrite Hvals.
  - cbn [rs_mean]. unfold ma_sum. rewrite Hnw.
    destruct (List.length px =? 0)%nat; [reflexivity |].
    unfold ma_mul. cbn [ma_data ma_mask]. now rewrite Hprod.
  - cbn [rs_mean]. unfold ma_mean. rewrite Hn.
    destruct (List.length px =? 0)%nat; [reflexivity |].
    cbn [ma_data ma_mask float_of]. now rewrite Hvals.
Qed.

(** X16: on an array whose pixels are all masked, with or without
    weights, [rs_count] is zero and [rs_sum] and [rs_mean] are NaN. *)
Theorem rs_reducers_fully_masked (data : list Q) (mask : list bool)
        (w : list Q) :
  List.length data = List.length mask ->
  List.length w = List.length data ->
  Forall (fun hidden => hidden = true) mask ->
  pyfloat_eq (rs_count (mk_masked data mask) (Some w)) (FNum 0) /\
  rs_count (mk_masked data mask) None = FNum (inject_Z 0) /\
  rs_sum (mk_masked data mask) (Some w) = FNaN /\
  rs_sum (mk_masked data mask) None = FNaN /\
  rs_mean (mk_masked data mask) (Some w) = FNaN /\
  rs_mean (mk_masked data mask) None = FNaN.
Proof.
  intros Hm Hw Hall.
  apply (valid_pixels_nil_iff data mask w Hm Hw) in Hall.
  destruct (rs_reducers_by_valid_pixels data mask w Hm Hw)
    as (Hc & Hc' & Hs & Hs' & Hmn & Hmn').
  rewrite Hall in *. cbn [List.length Nat.eqb] in *.
  repeat split; assumption.
Qed.

Lemma rs_reducers_fully_masked_witness :
  rs_sum (mk_masked [3; 4]%Q [true; true]) (Some [1; 1 # 2]%Q) = FNaN /\
  rs_count (mk_masked [3; 4]%Q [true; true]) None = FNum (inject_Z 0).
Proof.
  destruct (rs_reducers_fully_masked [3; 4]%Q [true; true] [1; 1 # 2]%Q
              eq_refl eq_refl)
    as (_ & Hc & Hs & _).
  - repeat constructor.
  - split; [exact Hs | exact Hc].
Defined.












Lemma compressed_agree (data data' : list Q) (mask : list bool) :
  List.length data = List.length mask ->
  List.length data' = List.length mask ->
  (forall i, nth i mask true = false -> nth i data 0 = nth i data' 0) ->
  compressed data mask = compressed data' mask.
Proof.
  revert data data'.
  induction mask as [| m mask IH]; intros [| x data] [| x' data'] Hd Hd' Hag;
    cbn in *; try discriminate; try reflexivity.
  assert (Hrest : compressed data mask = compressed data' mask).
  { apply IH; try lia. intros i Hi. apply (Hag (S i) Hi). }
  destruct m; [exact Hrest |].
  rewrite Hrest. f_equal. apply (Hag 0%nat eq_refl).
Qed.

Lemma compressed_products_agree (data data' : list Q) (mask : list bool)
      (w : list Q) :
  List.length data = List.length mask ->
  List.length data' = List.length mask ->
  (forall i, nth i mask true = false -> nth i data 0 = nth i data' 0) ->
  compressed (zip_with Qmult data w) mask
  = compressed (zip_with Qmult data' w) mask.
Proof.
  revert data data' w.
  induction mask as [| m mask IH];
    intros [| x data] [| x' data'] [| wx w] Hd Hd' Hag;
    cbn in *; try discriminate; try reflexivity.
  assert (Hrest : compressed (zip_with Qmult data w) mask
                  = compressed (zip_with Qmult data' w) mask).
  { apply IH; try lia. intros i Hi. apply (Hag (S i) Hi). }
  destruct m; [exact Hrest |].
  rewrite Hrest. f_equal. now rewrite (Hag 0%nat eq_refl).
Qed.

(** X20: the values under the mask are never read: two arrays with one
    mask that agree on the valid pixels give the same count, sum and
    mean, with and without weights. *)
Theorem rs_reducers_ignore_masked (data data' : list Q) (mask : list bool)
        (w : option (list Q)) :
  List.length data = List.length mask ->
  List.length data' = List.length mask ->
  (forall i, nth i mask true = false -> nth i data 0 = nth i data' 0) ->
  rs_count (mk_masked data mask) w = rs_count (mk_masked data' mask) w /\
  rs_sum (mk_masked data mask) w = rs_sum (mk_masked data' mask) w /\
  rs_mean (mk_masked data mask) w = rs_mean (mk_masked data' mask) w.
Proof.
  intros Hd Hd' Hag.
  pose proof (compressed_agree data data' mask Hd Hd' Hag) as Hc.
  destruct w as [w |].
  - pose proof (compressed_products_agree data data' mask w Hd Hd' Hag) as Hp.
    unfold rs_count, rs_sum, rs_mean, ma_sum, ma_count, ma_mul, valid_weights.
    cbn [ma_data ma_mask]. rewrite Hp. repeat split.
  - unfold rs_count, rs_sum, rs_mean, ma_sum, ma_mean, ma_count.
    cbn [ma_data ma_mask]. rewrite Hc. repeat split.
Qed.

Lemma rs_reducers_ignore_masked_witness :
  rs_mean (mk_masked [3; 4; - 999]%Q [false; false; true])
          (Some [1; 1 # 2; 1]%Q)
  = rs_mean (mk_masked [3; 4; 0]%Q [false; false; true])
            (Some [1; 1 # 2; 1]%Q).
Proof.
  apply (rs_reducers_ignore_masked [3; 4; - 999]%Q [3; 4; 0]%Q
                                   [false; false; true]
                                   (Some [1; 1 # 2; 1]%Q) eq_refl eq_refl).
  intros [| [| [| i]]] Hi; cbn in *; try reflexivity; try discriminate.
Defined.

(** ** More on rebinning *)

Lemma signed_wrap_add (h a x : Z) :
  (0 < h)%Z ->
  ((((a + h) mod (2 * h) - h) + ((x + h) mod (2 * h) - h) + h) mod (2 * h) - h
   = (a + x + h) mod (2 * h) - h)%Z.
Proof.
  intros Hh. f_equal.
  replace ((a + h) mod (2 * h) - h + ((x + h) mod (2 * h) - h) + h)%Z
    with ((a + h) mod (2 * h) + ((x + h) mod (2 * h) - h))%Z by lia.
  rewrite Z.add_mod_idemp_l by lia.
  replace (a + h + ((x + h) mod (2 * h) - h))%Z
    with ((x + h) mod (2 * h) + a)%Z by lia.
  rewrite Z.add_mod_idemp_l by lia.
  f_equal. lia.
Qed.

(** Adding in a type agrees with adding the integers and storing the
    result. *)
Lemma wrap_add (dt : dtype) (a x : Z) :
  wrap dt (wrap dt a + wrap dt x) = wrap dt (a + x).
Proof.
  destruct dt; cbn [wrap];
    try (symmetry; apply Zplus_mod);
    try reflexivity.
  - apply (signed_wrap_add (2 ^ 7) a x). lia.
  - apply (signed_wrap_add (2 ^ 15) a x). lia.
  - apply (signed_wrap_add (2 ^ 31) a x). lia.
  - apply (signed_wrap_add (2 ^ 63) a x). lia.
Qed.

Lemma wrap_idem (dt : dtype) (z : Z) : wrap dt (wrap dt z) = wrap dt z.
Proof.
  pose proof (wrap_add dt z 0) as H.
  assert (H0 : wrap dt 0 = 0%Z) by (destruct dt; reflexivity).
  rewrite H0, !Z.add_0_r in H. exact H.
Qed.

Lemma wrap_zero (dt : dtype) : wrap dt 0 = 0%Z.
Proof. destruct dt; reflexivity. Qed.

(** A sum accumulated in [dt] is the exact sum stored in [dt]. *)
Lemma fold_add_dtype_wrap (dt : dtype) (l : list Z) (a : Z) :
  fold_left (add_dtype dt) (map (wrap dt) l) (wrap dt a)
  = wrap dt (a + Zsum l).
Proof.
  revert a. induction l as [| x l IH]; intros a; cbn [map fold_left].
  - unfold Zsum. cbn. now rewrite Z.add_0_r.
  - unfold add_dtype at 2. rewrite wrap_add, IH, Zsum_cons.
    f_equal. lia.
Qed.

Lemma sum_dtype_wrap (dt : dtype) (l : list Z) :
  sum_dtype dt l = wrap dt (Zsum l).
Proof.
  unfold sum_dtype. rewrite <- (wrap_zero dt) at 1.
  now rewrite fold_add_dtype_wrap.
Qed.

(** The sum along the second axis, in any type. *)
Lemma fold_columns_wrap (dt : dtype) (cells : nat -> nat -> Z)
      (rows cols : list nat) (start : nat -> Z) :
  fold_left (zip_with (add_dtype dt))
            (map (map (wrap dt))
                 (map (fun di => map (fun j => wrap dt (cells di j)) cols) rows))
            (map (fun j => wrap dt (start j)) cols)
  = map (fun j => wrap dt (start j + Zsum (map (fun di => cells di j) rows)))
        cols.
Proof.
  revert start.
  induction rows as [| di rows IH]; intros start; cbn [map fold_left].
  - apply map_ext. intros j. unfold Zsum. cbn. now rewrite Z.add_0_r.
  - rewrite (map_map (fun j => wrap dt (cells di j)) (wrap dt) cols).
    rewrite zip_with_map.
    rewrite (map_ext
               (fun j => add_dtype dt (wrap dt (start j))
                                   (wrap dt (wrap dt (cells di j))))
               (fun j => wrap dt (start j + cells di j)))
      by (intros j; unfold add_dtype; now rewrite wrap_idem, wrap_add).
    rewrite (IH (fun j => (start j + cells di j)%Z)).
    apply map_ext. intros j. rewrite Zsum_cons. f_equal. lia.
Qed.

(** The slice of block [(i, j)] in oversampled row [i * scale + di]. *)
Lemma block_row_slice (items : list bool) (rows cols scale i di j : nat) :
  List.length items = (rows * scale * (cols * scale))%nat ->
  (i < rows)%nat -> (di < scale)%nat -> (j < cols)%nat ->
  firstn scale
         (skipn (((i * scale + di) * cols + j) * scale) (map b2z items))
  = map (fun dj =>
           b2z (nd_get (mk_ndarray (rows * scale, cols * scale)%nat items)
                       false (i * scale + di) (j * scale + dj)))
        (seq 0 scale).
Proof.
  intros Hlen Hi Hdi Hj.
  assert (H1 : (i * scale + di + 1 <= rows * scale)%nat) by nia.
  assert (H2 : ((i * scale + di) * cols + j + 1 <= rows * scale * cols)%nat)
    by nia.
  assert (H3 : (((i * scale + di) * cols + j + 1) * scale
                <= rows * scale * cols * scale)%nat)
    by (apply Nat.mul_le_mono_r; exact H2).
  rewrite (firstn_skipn_seq 0%Z) by (rewrite length_map; lia).
  apply map_ext. intros dj. unfold nd_get. cbn [nd_shape nd_items snd].
  change 0%Z with (b2z false). rewrite map_nth.
  do 2 f_equal. lia.
Qed.

(** X21: in whatever type the sums are accumulated, [rebin_sum] of an
    array of [rows * scale] by [cols * scale] items gives, for each block,
    the number of its covered items as stored in that type: the count
    itself when it fits, the count wrapped around when it does not. *)
Theorem rebin_sum_any_dtype (items : list bool) (rows cols scale : nat)
        (dt : dtype) :
  List.length items = (rows * scale * (cols * scale))%nat ->
  (0 < rows)%nat -> (0 < cols)%nat ->
  rebin_sum (mk_ndarray (rows * scale, cols * scale)%nat items)
            (rows, cols) dt
  = Ok (mk_ndarray (rows, cols)
          (List.concat
             (map (fun i =>
                     map (fun j =>
                            wrap dt
                              (block_count
                                 (mk_ndarray (rows * scale, cols * scale)%nat
                                             items)
                                 scale i j))
                         (seq 0 cols))
                  (seq 0 rows)))).
Proof.
  intros Hlen Hrows Hcols.
  unfold rebin_sum. cbn [nd_shape nd_items fst snd].
  destruct (Nat.eqb_spec rows 0); [lia |].
  destruct (Nat.eqb_spec cols 0); [lia |].
  cbn [orb].
  replace (rows * scale / rows)%nat with scale
    by (rewrite (Nat.mul_comm rows scale); symmetry; now apply Nat.div_mul).
  replace (cols * scale / cols)%nat with scale
    by (rewrite (Nat.mul_comm cols scale); symmetry; now apply Nat.div_mul).
  replace (rows * scale * cols * scale =? List.length items)%nat with true
    by (symmetry; apply Nat.eqb_eq; lia).
  cbn [negb]. do 3 f_equal.
  rewrite reshape4_seq. unfold sum_last, sum_axis1.
  rewrite !map_map.
  apply map_ext_in. intros i Hi. apply in_seq in Hi.
  rewrite repeat_as_map, (map_map _ (map (sum_dtype dt))).
  set (arr := mk_ndarray (rows * scale, cols * scale)%nat items).
  set (cell := fun di j : nat =>
                 Zsum (map (fun dj =>
                              b2z (nd_get arr false (i * scale + di)
                                          (j * scale + dj)))
                           (seq 0 scale))).
  assert (Hrows_eq :
            map (fun di =>
                   map (sum_dtype dt)
                       (map (fun j =>
                               firstn scale
                                 (skipn (((i * scale + di) * cols + j) * scale)
                                        (map b2z items)))
                            (seq 0 cols)))
                (seq 0 scale)
            = map (fun di => map (fun j => wrap dt (cell di j)) (seq 0 cols))
                  (seq 0 scale)).
  { apply map_ext_in. intros di Hdi. apply in_seq in Hdi.
    rewrite map_map.
    apply map_ext_in. intros j Hj. apply in_seq in Hj.
    rewrite (block_row_slice items rows cols scale i di j) by lia.
    apply sum_dtype_wrap. }
  rewrite Hrows_eq.
  rewrite (map_ext (fun _ : nat => 0%Z) (fun _ : nat => wrap dt 0))
    by (intros; symmetry; apply wrap_zero).
  rewrite (fold_columns_wrap dt cell (seq 0 scale) (seq 0 cols)
                             (fun _ => 0%Z)).
  apply map_ext. intros j. now rewrite Z.add_0_l.
Qed.

(** One block of sixteen by sixteen covered items, summed in [uint8]: the
    count, 256, wraps around to 0. *)
Lemma rebin_sum_any_dtype_witness :
  rebin_sum (mk_ndarray (1 * 16, 1 * 16)%nat (repeat true 256)) (1, 1)%nat
            UInt8
  = Ok (mk_ndarray (1, 1)%nat [0%Z]).
Proof.
  rewrite (rebin_sum_any_dtype (repeat true 256) 1 1 16 UInt8);
    [| reflexivity | lia | lia].
  vm_compute. reflexivity.
Defined.

(** X22: for an array that is not empty and a target shape without a
    zero, [rebin_sum] returns exactly when the target rows divide the rows
    of the array and the target columns divide its columns; otherwise the
    reshape raises a [ValueError]. *)
Theorem rebin_sum_needs_multiples (arr : ndarray bool) (rows cols : nat)
        (dt : dtype) :
  List.length (nd_items arr)
  = (fst (nd_shape arr) * snd (nd_shape arr))%nat ->
  (0 < fst (nd_shape arr))%nat -> (0 < snd (nd_shape arr))%nat ->
  (0 < rows)%nat -> (0 < cols)%nat ->
  (is_ok (rebin_sum arr (rows, cols) dt) = true <->
   (fst (nd_shape arr) mod rows = 0 /\ snd (nd_shape arr) mod cols = 0)%nat) /\
  (is_ok (rebin_sum arr (rows, cols) dt) = false ->
   rebin_sum arr (rows, cols) dt = Raise (ValueError "cannot reshape array")).
Proof.
  destruct arr as [[r c] items]. cbn [nd_shape nd_items fst snd].
  intros Hlen Hr Hc Hrows Hcols.
  unfold rebin_sum. cbn [nd_shape nd_items fst snd].
  destruct (Nat.eqb_spec rows 0); [lia |].
  destruct (Nat.eqb_spec cols 0); [lia |].
  cbn [orb].
  pose proof (Nat.div_mod_eq r rows) as Hdr.
  pose proof (Nat.div_mod_eq c cols) as Hdc.
  pose proof (Nat.mod_upper_bound r rows ltac:(lia)) as Hmr.
  pose proof (Nat.mod_upper_bound c cols ltac:(lia)) as Hmc.
  destruct (Nat.eqb_spec (rows * (r / rows) * cols * (c / cols))
                         (List.length items)) as [Heq | Hneq];
    cbn [negb is_ok].
  - split; [| discriminate]. split; [intros _ | reflexivity].
    rewrite Hlen in Heq.
    assert (HA : (rows * (r / rows) <= r)%nat) by lia.
    assert (HB : (cols * (c / cols) <= c)%nat) by lia.
    assert (Hprod : (rows * (r / rows) * (cols * (c / cols)) = r * c)%nat)
      by lia.
    assert (rows * (r / rows) = r)%nat by nia.
    assert (cols * (c / cols) = c)%nat by nia.
    lia.
  - split; [| reflexivity]. split; [discriminate |].
    intros [Hr0 Hc0]. exfalso. apply Hneq. rewrite Hlen.
    rewrite Hr0 in Hdr. rewrite Hc0 in Hdc.
    rewrite Nat.add_0_r in Hdr, Hdc.
    rewrite <- Nat.mul_assoc, <- Hdr, <- Hdc. reflexivity.
Qed.

(** Four rows cannot be rebinned to three. *)
Lemma rebin_sum_needs_multiples_witness :
  rebin_sum (mk_ndarray (4, 2)%nat (repeat true 8)) (3, 1)%nat UInt8
  = Raise (ValueError "cannot reshape array").
Proof.
  apply (proj2 (rebin_sum_needs_multiples
                  (mk_ndarray (4, 2)%nat (repeat true 8)) 3 1 UInt8
                  eq_refl ltac:(cbn; lia) ltac:(cbn; lia)
                  ltac:(lia) ltac:(lia))).
  reflexivity.
Defined.

Lemma Zsum_app (l l' : list Z) : Zsum (l ++ l') = (Zsum l + Zsum l')%Z.
Proof.
  induction l as [| x l IH]; cbn [app].
  - unfold Zsum at 2. cbn. lia.
  - rewrite !Zsum_cons, IH. lia.
Qed.

Lemma Zsum_concat (L : list (list Z)) :
  Zsum (List.concat L) = Zsum (map Zsum L).
Proof.
  induction L as [| l L IH]; [reflexivity |].
  cbn [List.concat map]. now rewrite Zsum_app, Zsum_cons, IH.
Qed.

Lemma concat_take_chunks {A : Type} (count size : nat) (l : list A) :
  (List.length l <= count * size)%nat ->
  List.concat (take_chunks count size l) = l.
Proof.
  revert l. induction count as [| count IH]; intros l Hlen.
  - destruct l; [reflexivity | cbn in Hlen; lia].
  - cbn [take_chunks List.concat]. rewrite IH.
    + apply firstn_skipn.
    + rewrite length_skipn. cbn in Hlen. lia.
Qed.

Lemma map_seq_offset {A : Type} (g : nat -> A) (a m : nat) :
  map g (seq a m) = map (fun b => g (a + b)%nat) (seq 0 m).
Proof.
  revert a. induction m as [| m IH]; intros a; [reflexivity |].
  cbn [seq map]. rewrite Nat.add_0_r. f_equal.
  rewrite (IH (S a)), <- seq_shift, map_map.
  apply map_ext. intros b. f_equal. lia.
Qed.

Lemma Zsum_single (x : Z) : Zsum [x] = x.
Proof. reflexivity. Qed.

(** A sum over [n * m] positions, taken [m] at a time. *)
Lemma Zsum_seq_split (g : nat -> Z) (n m : nat) :
  Zsum (map g (seq 0 (n * m)))
  = Zsum (map (fun a => Zsum (map (fun b => g (a * m + b)%nat) (seq 0 m)))
              (seq 0 n)).
Proof.
  induction n as [| n IH]; [reflexivity |].
  rewrite seq_S, map_app, Zsum_app, <- IH. cbn [map Nat.add].
  rewrite Zsum_single.
  replace (S n * m)%nat with (n * m + m)%nat by lia.
  rewrite seq_app, map_app, Zsum_app. f_equal.
  cbn [Nat.add]. now rewrite map_seq_offset.
Qed.

(** Two nested sums commute. *)
Lemma Zsum_swap (g : nat -> nat -> Z) (l l' : list nat) :
  Zsum (map (fun a => Zsum (map (fun b => g a b) l')) l)
  = Zsum (map (fun b => Zsum (map (fun a => g a b) l)) l').
Proof.
  induction l as [| a l IH]; cbn [map].
  - unfold Zsum at 1. cbn [fold_left].
    induction l' as [| b l' IH']; [reflexivity |].
    cbn [map]. rewrite Zsum_cons, <- IH'. reflexivity.
  - rewrite Zsum_cons, IH. clear IH.
    induction l' as [| b l' IH']; [reflexivity |].
    cbn [map]. rewrite !Zsum_cons, <- IH'. lia.
Qed.

(** Every item of the oversampled array is counted in one block. *)
Lemma block_counts_total (items : list bool) (rows cols scale : nat) :
  List.length items = (rows * scale * (cols * scale))%nat ->
  Zsum (List.concat
          (map (fun i =>
                  map (fun j =>
                         block_count
                           (mk_ndarray (rows * scale, cols * scale)%nat items)
                           scale i j)
                      (seq 0 cols))
               (seq 0 rows)))
  = Zsum (map b2z items).
Proof.
  intros Hlen.
  set (arr := mk_ndarray (rows * scale, cols * scale)%nat items).
  (* the items, one oversampled row after the other *)
  assert (Hitems : map b2z items
                   = map (fun k => b2z (nth k items false))
                         (seq 0 (rows * scale * (cols * scale)))).
  { rewrite <- Hlen. clear.
    induction items as [| x items IH]; [reflexivity |].
    cbn [map List.length seq nth]. f_equal.
    rewrite <- seq_shift, map_map. exact IH. }
  rewrite Hitems.
  rewrite (Zsum_seq_split (fun k => b2z (nth k items false))
                          (rows * scale) (cols * scale)).
  rewrite (Zsum_seq_split
             (fun r => Zsum (map (fun b => b2z (nth (r * (cols * scale) + b)
                                                    items false))
                                 (seq 0 (cols * scale))))
             rows scale).
  rewrite Zsum_concat, map_map.
  f_equal. apply map_ext. intros i.
  rewrite (map_ext
             (fun di =>
                Zsum (map (fun b => b2z (nth ((i * scale + di) * (cols * scale) + b)
                                             items false))
                          (seq 0 (cols * scale))))
             (fun di =>
                Zsum (map (fun j =>
                             Zsum (map (fun dj =>
                                          b2z (nd_get arr false (i * scale + di)
                                                      (j * scale + dj)))
                                       (seq 0 scale)))
                          (seq 0 cols))))
    by (intros di;
        apply (Zsum_seq_split
                 (fun b => b2z (nth ((i * scale + di) * (cols * scale) + b)
                                    items false))
                 cols scale)).
  rewrite (Zsum_swap
             (fun di j =>
                Zsum (map (fun dj =>
                             b2z (nd_get arr false (i * scale + di)
                                         (j * scale + dj)))
                          (seq 0 scale)))
             (seq 0 scale) (seq 0 cols)).

  reflexivity.
Qed.

(** X23: rebinning keeps the total: summed in the type the source picks for
    the scale, the rebinned array holds as many covered items as the
    oversampled array. *)
Theorem rebin_sum_keeps_total (items : list bool) (rows cols scale : nat) :
  List.length items = (rows * scale * (cols * scale))%nat ->
  (0 < rows)%nat -> (0 < cols)%nat ->
  exists out,
    rebin_sum (mk_ndarray (rows * scale, cols * scale)%nat items)
              (rows, cols) (min_scalar_type (Z.of_nat scale ^ 2))
    = Ok out /\
    nd_shape out = (rows, cols) /\
    Zsum (nd_items out) = Zsum (map b2z items).
Proof.
  intros Hlen Hrows Hcols.
  eexists. split; [| split].
  - apply (rebin_sum_blocks _ rows cols scale _ (Z.of_nat scale ^ 2));
      try assumption; try reflexivity.
    + intros z Hz. now apply wrap_min_scalar_type.
    + lia.
  - reflexivity.
  - cbn [nd_items]. now apply block_counts_total.
Qed.

Lemma rebin_sum_keeps_total_witness :
  exists out,
    rebin_sum (mk_ndarray (1 * 2, 2 * 2)%nat
                          [true; true; false; false; true; false; false; false])
              (1, 2)%nat (min_scalar_type (Z.of_nat 2 ^ 2))
    = Ok out /\
    nd_shape out = (1, 2)%nat /\
    Zsum (nd_items out) = 3%Z.
Proof.
  exact (rebin_sum_keeps_total
           [true; true; false; false; true; false; false; false] 1 2 2
           eq_refl ltac:(lia) ltac:(lia)).
Defined.

(** ** More on fractional rasterization *)

Lemma block_count_bounds (arr : ndarray bool) (scale i j : nat) :
  (0 <= block_count arr scale i j <= Z.of_nat scale * Z.of_nat scale)%Z.
Proof.
  unfold block_count.
  pose proof (Zsum_map_bounds
                (fun di =>
                   Zsum (map (fun dj =>
                                b2z (nd_get arr false (i * scale + di)
                                            (j * scale + dj)))
                             (seq 0 scale)))
                (seq 0 scale) (Z.of_nat scale)) as Hb.
  rewrite length_seq in Hb. apply Hb. intros di _.
  pose proof (Zsum_map_bounds
                (fun dj => b2z (nd_get arr false (i * scale + di)
                                       (j * scale + dj)))
                (seq 0 scale) 1) as Hc.
  rewrite length_seq in Hc.
  assert (forall x, In x (seq 0 scale) ->
                    (0 <= b2z (nd_get arr false (i * scale + di)
                                      (j * scale + x)) <= 1)%Z)
    by (intros x _; destruct (nd_get _ _ _ _); cbn; lia).
  specialize (Hc H). lia.
Qed.

Lemma Zsum_map_le {A : Type} (g g' : A -> Z) (l : list A) :
  (forall x, In x l -> g x <= g' x)%Z ->
  (Zsum (map g l) <= Zsum (map g' l))%Z.
Proof.
  induction l as [| x l IH]; intros Hle; [reflexivity |].
  cbn [map]. rewrite !Zsum_cons.
  assert (g x <= g' x)%Z by (apply Hle; now left).
  assert (Zsum (map g l) <= Zsum (map g' l))%Z
    by (apply IH; intros y Hy; apply Hle; now right).
  lia.
Qed.

Lemma Zsum_map_const {A : Type} (c : Z) (l : list A) :
  Zsum (map (fun _ => c) l) = (Z.of_nat (List.length l) * c)%Z.
Proof.
  induction l as [| x l IH]; [reflexivity |].
  cbn [map List.length]. rewrite Zsum_cons, IH. lia.
Qed.

(** More coverage, larger counts. *)
Lemma block_count_mono (shape : nat * nat) (items items' : list bool)
      (scale i j : nat) :
  (forall k, nth k items false = true -> nth k items' false = true) ->
  (block_count (mk_ndarray shape items) scale i j
   <= block_count (mk_ndarray shape items') scale i j)%Z.
Proof.
  intros Hsub. unfold block_count.
  apply Zsum_map_le. intros di _. apply Zsum_map_le. intros dj _.
  unfold nd_get. cbn [nd_shape nd_items].
  specialize (Hsub ((i * scale + di) * snd shape + (j * scale + dj))%nat).
  destruct (nth ((i * scale + di) * snd shape + (j * scale + dj)) items false).
  - rewrite (Hsub eq_refl). reflexivity.
  - destruct (nth _ items' false); cbn; lia.
Qed.

(** An item of the boolean array is what the rasterizer burnt there. *)
Lemma nth_burnt (l : list Z) (k : nat) :
  nth k (map (fun v => negb (v =? 0)%Z) l) false = negb (nth k l 0 =? 0)%Z.
Proof. exact (map_nth (fun v => negb (v =? 0)%Z) l 0%Z k). Qed.

Section PctCoverFurther.

Variable geometry : Type.
Variable features_rasterize :
  geometry -> Z * Z -> Affine.t -> bool -> result (list Z).

(** The array [rasterize_pctcover_geom] returns, written out. *)
Lemma rasterize_pctcover_geom_value
      (geom : geometry) (rows cols : nat) (affine : Affine.t) (s : Z)
      (all_touched : bool) (l : list Z) :
  (1 <= s)%Z -> (0 < rows)%nat -> (0 < cols)%nat ->
  features_rasterize geom (new_shape (mk_like (rows, cols) affine) s)
                     (new_affine (mk_like (rows, cols) affine) s) all_touched
  = Ok l ->
  List.length l = (rows * Z.to_nat s * (cols * Z.to_nat s))%nat ->
  rasterize_pctcover_geom geometry features_rasterize geom
                          (mk_like (rows, cols) affine) (Some s) all_touched
  = Ok (mk_ndarray (rows, cols)
          (map (fun v => inject_Z v / inject_Z (s ^ 2))
               (List.concat
                  (map (fun i =>
                          map (fun j =>
                                 block_count
                                   (mk_ndarray
                                      (rows * Z.to_nat s, cols * Z.to_nat s)%nat
                                      (map (fun v => negb (v =? 0)%Z) l))
                                   (Z.to_nat s) i j)
                              (seq 0 cols))
                       (seq 0 rows))))).
Proof.
  intros Hs Hrows Hcols Hrast Hlen.
  unfold rasterize_pctcover_geom.
  destruct (Z.eqb_spec s 0); [lia |].
  unfold rasterize_geom. rewrite Hrast. cbn [bind like_shape].
  cbn [new_shape like_shape fst snd].
  rewrite !Z2Nat.inj_mul, !Nat2Z.id by lia.
  rewrite (rebin_sum_blocks _ rows cols (Z.to_nat s)
                            (min_scalar_type (s ^ 2)) (s ^ 2)).
  - reflexivity.
  - intros z Hz. now apply wrap_min_scalar_type.
  - rewrite Z2Nat.id by lia. lia.
  - reflexivity.
  - cbn [nd_items]. now rewrite length_map.
  - exact Hrows.
  - exact Hcols.
Qed.

Lemma pctcover_pixel (rows cols : nat) (s : Z) (count : nat -> nat -> Z)
      (i j : nat) :
  (i < rows)%nat -> (j < cols)%nat ->
  nd_get (mk_ndarray (rows, cols)
            (map (fun v => inject_Z v / inject_Z (s ^ 2))
                 (List.concat
                    (map (fun i0 => map (fun j0 => count i0 j0) (seq 0 cols))
                         (seq 0 rows)))))
         0 i j
  = inject_Z (count i j) / inject_Z (s ^ 2).
Proof.
  intros Hi Hj. unfold nd_get. cbn [nd_shape nd_items snd].
  rewrite (nth_indep _ 0 (inject_Z 0 / inject_Z (s ^ 2))).
  - rewrite (map_nth (fun v => inject_Z v / inject_Z (s ^ 2))).
    now rewrite nth_concat_grid.
  - rewrite length_map, (length_concat_grid _ rows cols). nia.
Qed.

(** X24: what [rasterize_pctcover_geom] never returns an array for: a
    scale of zero raises [ZeroDivisionError] before the rasterizer is
    asked; an error of the rasterizer is passed on; and an empty window
    gives no array whatever the rasterizer does. *)
Theorem rasterize_pctcover_geom_failures
        (geom : geometry) (like : raster_like) (s : Z) (all_touched : bool) :
  (s = 0%Z ->
   rasterize_pctcover_geom geometry features_rasterize geom like (Some s)
                           all_touched
   = Raise (ZeroDivisionError "float division by zero")) /\
  (forall e,
      s <> 0%Z ->
      features_rasterize geom (new_shape like s) (new_affine like s)
                         all_touched = Raise e ->
      rasterize_pctcover_geom geometry features_rasterize geom like (Some s)
                              all_touched = Raise e) /\
  (s <> 0%Z ->
   fst (like_shape like) = 0%nat \/ snd (like_shape like) = 0%nat ->
   is_ok (rasterize_pctcover_geom geometry features_rasterize geom like
                                  (Some s) all_touched) = false).
Proof.
  split; [| split].
  - intros ->. reflexivity.
  - intros e Hs Hrast. unfold rasterize_pctcover_geom.
    destruct (Z.eqb_spec s 0); [contradiction |].
    unfold rasterize_geom. now rewrite Hrast.
  - intros Hs Hempty. unfold rasterize_pctcover_geom.
    destruct (Z.eqb_spec s 0); [contradiction |].
    destruct (rasterize_geom _ _ _ _ _ _) as [arr | e]; [| reflexivity].
    cbn [bind]. now rewrite rebin_sum_empty_window.
Qed.

(** X25: with a scale of one the result is the rasterization itself, one
    where a pixel is burnt and zero where it is not. *)
Theorem rasterize_pctcover_geom_scale_one
        (geom : geometry) (rows cols : nat) (affine : Affine.t)
        (all_touched : bool) (l : list Z) :
  (0 < rows)%nat -> (0 < cols)%nat ->
  features_rasterize geom (new_shape (mk_like (rows, cols) affine) 1)
                     (new_affine (mk_like (rows, cols) affine) 1) all_touched
  = Ok l ->
  List.length l = (rows * cols)%nat ->
  exists out,
    rasterize_pctcover_geom geometry features_rasterize geom
                            (mk_like (rows, cols) affine) (Some 1%Z)
                            all_touched = Ok out /\
    forall i j, (i < rows)%nat -> (j < cols)%nat ->
                nd_get out 0 i j
                == (if (nth (i * cols + j) l 0 =? 0)%Z then 0 else 1).
Proof.
  intros Hrows Hcols Hrast Hlen.
  eexists. split.
  - apply (rasterize_pctcover_geom_value geom rows cols affine 1 all_touched l);
      try assumption; lia.
  - intros i j Hi Hj. rewrite pctcover_pixel by assumption.
    change (Z.to_nat 1) with 1%nat.
    unfold block_count, nd_get. cbn [seq map nd_shape nd_items snd].
    rewrite !Zsum_single.
    replace ((i * 1 + 0) * (cols * 1) + (j * 1 + 0))%nat
      with (i * cols + j)%nat by lia.
    rewrite nth_burnt.
    destruct (nth (i * cols + j) l 0 =? 0)%Z; reflexivity.
Qed.

(** X26: more burnt subpixels never give a smaller fraction: when every
    subpixel burnt in one rasterization is burnt in another, as between
    the two settings of [all_touched], each pixel of the first result is
    at most the pixel of the second. *)
Theorem rasterize_pctcover_geom_monotone
        (geom : geometry) (rows cols : nat) (affine : Affine.t) (s : Z)
        (l l' : list Z) :
  (1 <= s)%Z -> (0 < rows)%nat -> (0 < cols)%nat ->
  features_rasterize geom (new_shape (mk_like (rows, cols) affine) s)
                     (new_affine (mk_like (rows, cols) affine) s) false
  = Ok l ->
  features_rasterize geom (new_shape (mk_like (rows, cols) affine) s)
                     (new_affine (mk_like (rows, cols) affine) s) true
  = Ok l' ->
  List.length l = (rows * Z.to_nat s * (cols * Z.to_nat s))%nat ->
  List.length l' = (rows * Z.to_nat s * (cols * Z.to_nat s))%nat ->
  (forall k, nth k l 0%Z <> 0%Z -> nth k l' 0%Z <> 0%Z) ->
  exists out out',
    rasterize_pctcover_geom geometry features_rasterize geom
                            (mk_like (rows, cols) affine) (Some s) false
    = Ok out /\
    rasterize_pctcover_geom geometry features_rasterize geom
                            (mk_like (rows, cols) affine) (Some s) true
    = Ok out' /\
    forall i j, (i < rows)%nat -> (j < cols)%nat ->
                nd_get out 0 i j <= nd_get out' 0 i j.
Proof.
  intros Hs Hrows Hcols Hrast Hrast' Hlen Hlen' Hsub.
  eexists. eexists. split; [| split].
  - now apply (rasterize_pctcover_geom_value geom rows cols affine s false l).
  - now apply (rasterize_pctcover_geom_value geom rows cols affine s true l').
  - intros i j Hi Hj. rewrite !pctcover_pixel by assumption.
    assert (Hpos : 0 < inject_Z (s ^ 2)).
    { replace 0 with (inject_Z 0) by reflexivity. rewrite <- Zlt_Qlt. lia. }
    apply Qmult_le_compat_r.
    + rewrite <- Zle_Qle. apply block_count_mono.
      intros k Hk.
      rewrite nth_burnt in *. apply negb_true_iff in Hk.
      apply Z.eqb_neq in Hk. apply Hsub in Hk.
      apply negb_true_iff. now apply Z.eqb_neq.
    + apply Qlt_le_weak. now apply Qinv_lt_0_compat.
Qed.

(** X27: a window whose subpixels are all burnt is covered everywhere
    with fraction one, and a window with none burnt with fraction zero. *)
Theorem rasterize_pctcover_geom_full_or_empty
        (geom : geometry) (rows cols : nat) (affine : Affine.t) (s : Z)
        (all_touched : bool) (l : list Z) :
  (1 <= s)%Z -> (0 < rows)%nat -> (0 < cols)%nat ->
  features_rasterize geom (new_shape (mk_like (rows, cols) affine) s)
                     (new_affine (mk_like (rows, cols) affine) s) all_touched
  = Ok l ->
  List.length l = (rows * Z.to_nat s * (cols * Z.to_nat s))%nat ->
  exists out,
    rasterize_pctcover_geom geometry features_rasterize geom
                            (mk_like (rows, cols) affine) (Some s) all_touched
    = Ok out /\
    (Forall (fun v => v <> 0%Z) l ->
     forall i j, (i < rows)%nat -> (j < cols)%nat -> nd_get out 0 i j == 1) /\
    (Forall (fun v => v = 0%Z) l ->
     forall i j, (i < rows)%nat -> (j < cols)%nat -> nd_get out 0 i j == 0).
Proof.
  intros Hs Hrows Hcols Hrast Hlen.
  eexists. split; [| split].
  - now apply (rasterize_pctcover_geom_value geom rows cols affine s
                                            all_touched l).
  - intros Hall i j Hi Hj. rewrite pctcover_pixel by assumption.
    assert (Hcount : block_count
                       (mk_ndarray (rows * Z.to_nat s, cols * Z.to_nat s)%nat
                                   (map (fun v => negb (v =? 0)%Z) l))
                       (Z.to_nat s) i j = (s ^ 2)%Z).
    { unfold block_count.
      rewrite (map_ext_in _ (fun _ => Z.of_nat (Z.to_nat s))).
      - rewrite Zsum_map_const, length_seq, Z2Nat.id by lia. lia.
      - intros di Hdi. apply in_seq in Hdi.
        rewrite (map_ext_in _ (fun _ => 1%Z)).
        + rewrite Zsum_map_const, length_seq. lia.
        + intros dj Hdj. apply in_seq in Hdj.
          unfold nd_get. cbn [nd_shape nd_items snd].
          rewrite nth_burnt.
          assert (Hin : In (nth ((i * Z.to_nat s + di) * (cols * Z.to_nat s)
                                 + (j * Z.to_nat s + dj)) l 0%Z) l).
          { apply nth_In. rewrite Hlen.
            assert ((i * Z.to_nat s + di + 1) <= rows * Z.to_nat s)%nat by nia.
            assert ((j * Z.to_nat s + dj + 1) <= cols * Z.to_nat s)%nat by nia.
            nia. }
          rewrite Forall_forall in Hall. apply Hall in Hin.
          apply Z.eqb_neq in Hin. now rewrite Hin. }
    rewrite Hcount. field.
    intros Hz. unfold Qeq in Hz. cbn in Hz. lia.
  - intros Hnone i j Hi Hj. rewrite pctcover_pixel by assumption.
    assert (Hcount : block_count
                       (mk_ndarray (rows * Z.to_nat s, cols * Z.to_nat s)%nat
                                   (map (fun v => negb (v =? 0)%Z) l))
                       (Z.to_nat s) i j = 0%Z).
    { unfold block_count.
      rewrite (map_ext_in _ (fun _ => 0%Z)).
      - rewrite Zsum_map_const. lia.
      - intros di _.
        rewrite (map_ext_in _ (fun _ => 0%Z)).
        + rewrite Zsum_map_const. lia.
        + intros dj _. unfold nd_get. cbn [nd_shape nd_items snd].
          rewrite nth_burnt.
          assert (Hz : nth ((i * Z.to_nat s + di) * (cols * Z.to_nat s)
                            + (j * Z.to_nat s + dj)) l 0%Z = 0%Z).
          { destruct (nth_in_or_default
                        ((i * Z.to_nat s + di) * (cols * Z.to_nat s)
                         + (j * Z.to_nat s + dj)) l 0%Z) as [Hin | Hd];
              [| exact Hd].
            rewrite Forall_forall in Hnone. now apply Hnone. }
          now rewrite Hz. }
    rewrite Hcount. unfold Qdiv. now rewrite Qmult_0_l.
Qed.

End PctCoverFurther.

(** A scale of zero, and an empty window. *)
Lemma rasterize_pctcover_geom_failures_witness :
  rasterize_pctcover_geom unit left_half_rasterize tt
    (mk_like (1, 2)%nat (Affine.mk 1 0 0 0 (- 1) 0)) (Some 0%Z) false
  = Raise (ZeroDivisionError "float division by zero") /\
  is_ok (rasterize_pctcover_geom unit left_half_rasterize tt
           (mk_like (0, 2)%nat (Affine.mk 1 0 0 0 (- 1) 0)) (Some 2%Z) false)
  = false.
Proof.
  split.
  - apply (proj1 (rasterize_pctcover_geom_failures
                    unit left_half_rasterize tt
                    (mk_like (1, 2)%nat (Affine.mk 1 0 0 0 (- 1) 0))
                    0 false)).
    reflexivity.
  - apply (proj2 (proj2 (rasterize_pctcover_geom_failures
                           unit left_half_rasterize tt
                           (mk_like (0, 2)%nat (Affine.mk 1 0 0 0 (- 1) 0))
                           2 false))).
    + discriminate.
    + left. reflexivity.
Defined.

(** One row of four pixels at scale one: the left two are burnt. *)
Lemma rasterize_pctcover_geom_scale_one_witness :
  exists out,
    rasterize_pctcover_geom unit left_half_rasterize tt
      (mk_like (1, 4)%nat (Affine.mk 1 0 0 0 (- 1) 0)) (Some 1%Z) false
    = Ok out /\
    nd_get out 0 0 1 == 1 /\ nd_get out 0 0 2 == 0.
Proof.
  destruct (rasterize_pctcover_geom_scale_one
              unit left_half_rasterize tt 1 4 (Affine.mk 1 0 0 0 (- 1) 0)
              false [1; 1; 0; 0]%Z)
    as (out & Hout & Hpix); try reflexivity; try lia.
  exists out. split; [exact Hout | split].
  - apply (Hpix 0%nat 1%nat); lia.
  - apply (Hpix 0%nat 2%nat); lia.
Defined.

(** The same window with and without [all_touched]. *)
Lemma rasterize_pctcover_geom_monotone_witness :
  exists out out',
    rasterize_pctcover_geom unit left_half_rasterize tt
      (mk_like (1, 2)%nat (Affine.mk 1 0 0 0 (- 1) 0)) (Some 2%Z) false
    = Ok out /\
    rasterize_pctcover_geom unit left_half_rasterize tt
      (mk_like (1, 2)%nat (Affine.mk 1 0 0 0 (- 1) 0)) (Some 2%Z) true
    = Ok out' /\
    nd_get out 0 0 0 <= nd_get out' 0 0 0.
Proof.
  destruct (rasterize_pctcover_geom_monotone
              unit left_half_rasterize tt 1 2 (Affine.mk 1 0 0 0 (- 1) 0) 2
              [1; 1; 0; 0; 1; 1; 0; 0]%Z [1; 1; 0; 0; 1; 1; 0; 0]%Z
              ltac:(lia) ltac:(lia) ltac:(lia) eq_refl eq_refl eq_refl eq_refl
              (fun k H => H))
    as (out & out' & Hout & Hout' & Hle).
  exists out, out'. split; [exact Hout | split; [exact Hout' |]].
  apply (Hle 0%nat 0%nat); lia.
Defined.

(** A window of one pixel in which nothing is burnt. *)
Lemma rasterize_pctcover_geom_full_or_empty_witness :
  exists out,
    rasterize_pctcover_geom unit left_half_rasterize tt
      (mk_like (1, 1)%nat (Affine.mk 1 0 0 0 (- 1) 0)) (Some 1%Z) false
    = Ok out /\
    nd_get out 0 0 0 == 0.
Proof.
  destruct (rasterize_pctcover_geom_full_or_empty
              unit left_half_rasterize tt 1 1 (Affine.mk 1 0 0 0 (- 1) 0) 1
              false [0%Z])
    as (out & Hout & _ & Hnone); try reflexivity; try lia.
  exists out. split; [exact Hout |].
  apply (Hnone ltac:(repeat constructor) 0%nat 0%nat); lia.
Defined.

(** ** More on points as boxes *)

(** X28: the shrink distance is never positive; it is one percent of the
    size of the pixel along [y] when [e <= a], as for every north-up
    raster, and one percent of the size along [x] when [a <= e]. *)
Theorem boxify_buff_values (affine : Affine.t) :
  boxify_buff affine <= 0 /\
  (Affine.e affine <= Affine.a affine ->
   boxify_buff affine == - ((1 # 100) * Qabs (Affine.e affine))) /\
  (Affine.a affine <= Affine.e affine ->
   boxify_buff affine == - ((1 # 100) * Qabs (Affine.a affine))).
Proof.
  unfold boxify_buff. split; [| split].
  - pose proof (Qabs_nonneg (Qmin (Affine.a affine) (Affine.e affine))) as H.
    set (m := Qabs (Qmin (Affine.a affine) (Affine.e affine))) in *.
    lra.
  - intros Hle. rewrite (Q.min_r _ _ Hle). ring.
  - intros Hle. rewrite (Q.min_l _ _ Hle). ring.
Qed.

(** A north-up raster with pixels thirty wide and ten high. *)
Lemma boxify_buff_values_witness :
  boxify_buff (Affine.mk 30 0 0 0 (- 10) 0)
  == - ((1 # 100) * Qabs (- 10)).
Proof.
  apply (proj1 (proj2 (boxify_buff_values (Affine.mk 30 0 0 0 (- 10) 0)))).
  cbn. discriminate.
Defined.

Section BoxifyFurther.

Variable rast_index : Affine.t -> Q -> Q -> Z * Z.
Variable window_bounds : window -> Affine.t -> Q * Q * Q * Q.

(** X29: [boxify_points] returns exactly for points and multipoints; every
    other geometry is refused with the [ValueError] of its first line. *)
Theorem boxify_points_only_points (g : geom) (affine : Affine.t) :
  (is_ok (boxify_points rast_index window_bounds g affine) = true <->
   match g with Point _ _ | MultiPoint _ => True | _ => False end) /\
  (is_ok (boxify_points rast_index window_bounds g affine) = false ->
   boxify_points rast_index window_bounds g affine
   = Raise (ValueError "Points or multipoints only")).
Proof.
  destruct g; cbn; split; try tauto; try (split; [discriminate | tauto]);
    try discriminate; split; auto.
Qed.

(** X30: the boxes come in the order of the points: the box of a point is
    the window of the one pixel [rast.index] gives for it, buffered by
    [boxify_buff]; an empty multipoint gives no box. *)
Theorem boxify_points_boxes (g : geom) (affine : Affine.t) :
  match g with Point _ _ | MultiPoint _ => True | _ => False end ->
  let pts := match g with
             | Point x y => [(x, y)]
             | MultiPoint geoms => geoms
             | _ => []
             end in
  exists boxes,
    boxify_points rast_index window_bounds g affine = Ok boxes /\
    List.length boxes = List.length pts /\
    forall i pt,
      nth_error pts i = Some pt ->
      exists b,
        nth_error boxes i = Some b /\
        buffer_distance b = boxify_buff affine /\
        box_bounds b
        = window_bounds
            ((fst (rast_index affine (fst pt) (snd pt)),
              fst (rast_index affine (fst pt) (snd pt)) + 1),
             (snd (rast_index affine (fst pt) (snd pt)),
              snd (rast_index affine (fst pt) (snd pt)) + 1))%Z
            affine.
Proof.
  intros Hpoint pts.
  assert (Hres : boxify_points rast_index window_bounds g affine
                 = Ok (map (fun pt : Q * Q =>
                              let (row, col) :=
                                rast_index affine (fst pt) (snd pt) in
                              mk_buffered_box
                                (window_bounds ((row, row + 1), (col, col + 1))%Z
                                               affine)
                                (boxify_buff affine))
                           pts)).
  { destruct g; try contradiction; reflexivity. }
  eexists. split; [exact Hres | split; [apply length_map |]].
  intros i pt Hnth.
  eexists. split; [apply map_nth_error; exact Hnth |].
  destruct (rast_index affine (fst pt) (snd pt)) as [row col].
  split; reflexivity.
Qed.

End BoxifyFurther.

(** A line is refused. *)
Lemma boxify_points_only_points_witness :
  boxify_points (fun _ _ _ => (0, 0)%Z) (fun _ _ => (0, - 1, 1, 0))
                (LineString [(0, 0); (1, 1)])
                (Affine.mk 1 0 0 0 (- 1) 0)
  = Raise (ValueError "Points or multipoints only").
Proof.
  apply (proj2 (boxify_points_only_points
                  (fun _ _ _ => (0, 0)%Z) (fun _ _ => (0, - 1, 1, 0))
                  (LineString [(0, 0); (1, 1)])
                  (Affine.mk 1 0 0 0 (- 1) 0))).
  reflexivity.
Defined.

(** A multipoint of three points gives three boxes. *)
Lemma boxify_points_boxes_witness :
  exists boxes,
    boxify_points (fun _ _ _ => (0, 0)%Z) (fun _ _ => (0, - 1, 1, 0))
                  (MultiPoint [(0, 0); (1 # 2, 0); (1, - 1)])
                  (Affine.mk 1 0 0 0 (- 1) 0)
    = Ok boxes /\
    List.length boxes = 3%nat.
Proof.
  destruct (boxify_points_boxes
              (fun _ _ _ => (0, 0)%Z) (fun _ _ => (0, - 1, 1, 0))
              (MultiPoint [(0, 0); (1 # 2, 0); (1, - 1)])
              (Affine.mk 1 0 0 0 (- 1) 0) I)
    as (boxes & Hres & Hlen & _).
  exists boxes. split; [exact Hres | exact Hlen].
Defined.
